(** * Cooperative Node Trust Simulator: the simulation engine of app.py

    A shallow embedding of the trust and reputation engine of [app.py]:
    the random topology, the six module-level dictionaries, the step
    function [simulate_step], the updater [update_trust_energy] and the
    suspicious-node list comprehension; and of what the script shows of
    it: the node colours of [get_node_color], the frame displayed for each
    completed step, and the canvas calls of [generate_pdf_report].

    Conventions of the embedding.
    - Python floats are rationals ([Q]), as every double is one.  The
      updater is given twice: [update_trust_energy_b64] rounds each
      operation to binary64 as CPython does; [update_trust_energy] is the
      same function in exact decimal arithmetic, on which the invariants
      of a run are proved.  The literals 0.4 and 0.8 of the behaviour
      policy are the doubles they denote; the 0.4 of the suspicious-node
      list is 2/5, which on doubles makes no difference.  Python's [min]
      and [max] are written out with the comparisons CPython performs.
    - Python ints (the packet counters) are [Z]; node identifiers, which
      come from [range(n)], are [nat].
    - The dictionaries are [gmap nat _]; a missing key raises [KeyError].
    - The module-level names ([G], [roles], [trust_scores], ...) and the
      state of the process-wide generator of the [random] module form the
      record [World], threaded through a state-and-exception monad.
    - The generator is a tape of draws in [0,1) with a read position.
    - Conversions of numbers to text ([round], the [.2f] and [.1f]
      formats, padding) are kept symbolic; the time stamps of the report
      are inputs. *)

From Stdlib Require Import QArith Qround Qminmax Qabs Qpower Lqa ZArith Lia.
From stdpp Require Import base option list gmap fin_maps strings.

Open Scope Q_scope.

(** ** Numbers *)

Definition Qltb (x y : Q) : bool := negb (Qle_bool y x).

(** [min(a, b)] of CPython: the first argument unless the second is
    strictly smaller. *)
Definition py_min (a b : Q) : Q := if Qltb b a then b else a.

(** [max(a, b)] of CPython: the first argument unless the second is
    strictly larger. *)
Definition py_max (a b : Q) : Q := if Qltb a b then b else a.

(** ** The arithmetic of binary64

    A Python float is a double, and a double is a rational.  The result
    of [+], [-] and [*] on floats is the exact result rounded to the
    nearest double, ties to the even significand. *)

(** [floor(log2 x)] of a positive rational. *)
Definition ilog2 (x : Q) : Z :=
  let l := (Z.log2 (Qnum x) - Z.log2 (Z.pos (Qden x)))%Z in
  if Qle_bool (2 ^ l) x then l else (l - 1)%Z.

(** Rounding to the nearest integer, ties to even. *)
Definition rne (q : Q) : Z :=
  let f := Qfloor q in
  let r := q - inject_Z f in
  if Qltb r (1 # 2) then f
  else if Qltb (1 # 2) r then (f + 1)%Z
  else if Z.even f then f else (f + 1)%Z.

(** The exponent of the last place of the doubles around [x]: 53
    significant bits, and the fixed exponent -1074 of the subnormal
    numbers below [2^-1022]. *)
Definition ulp_exp (x : Q) : Z := Z.max (ilog2 (Qabs x) - 52) (-1074).

(** The double nearest to [x].  (Overflow to infinity, beyond [2^1024], is
    left out: the values of this program stay below 103.) *)
Definition b64 (x : Q) : Q :=
  if Qeq_bool x 0 then 0
  else Qred (inject_Z (rne (x / 2 ^ ulp_exp x)) * 2 ^ ulp_exp x).

Definition fadd (a b : Q) : Q := b64 (a + b).
Definition fsub (a b : Q) : Q := b64 (a - b).
Definition fmul (a b : Q) : Q := b64 (a * b).

(** The doubles that the literals [0.05], [0.1], [0.4] and [0.8] of lines
    42, 44, 58 and 60 denote. *)
Definition double_0_05 : Q := 3602879701896397 # 72057594037927936.
Definition double_0_1 : Q := 3602879701896397 # 36028797018963968.
Definition double_0_4 : Q := 3602879701896397 # 9007199254740992.
Definition double_0_8 : Q := 3602879701896397 # 4503599627370496.

(** ** The generator of the [random] module *)

Definition in_unit (q : Q) : bool := Qle_bool 0 q && Qltb q 1.

Record UnitDraw := mkDraw { draw_val : Q; draw_ok : in_unit draw_val = true }.

Record Rng := mkRng { tape : nat -> UnitDraw; pos : nat }.

Definition rng_next (g : Rng) : Q * Rng :=
  (draw_val (tape g (pos g)), {| tape := tape g; pos := S (pos g) |}).

(** ** The topology: a [networkx.Graph] as node list and adjacency *)

Record Graph := mkGraph { nodes : list nat; adj : gmap nat (list nat) }.

(** Insertion of a key in an insertion-ordered dict used as a set. *)
Definition add_key (v : nat) (l : list nat) : list nat :=
  if decide (v ∈ l) then l else l ++ [v].

Definition add_node (u : nat) (gr : Graph) : Graph :=
  if decide (u ∈ nodes gr) then gr
  else {| nodes := nodes gr ++ [u]; adj := <[u := []]> (adj gr) |}.

Definition adj_of (gr : Graph) (u : nat) : list nat := default [] (adj gr !! u).

Definition add_edge (u v : nat) (gr : Graph) : Graph :=
  let g1 := add_node v (add_node u gr) in
  let a1 := <[u := add_key v (adj_of g1 u)]> (adj g1) in
  {| nodes := nodes g1;
     adj := <[v := add_key u (default [] (a1 !! v))]> a1 |}.

(** [nx.empty_graph(n)]: the nodes [range(n)], no edge. *)
Definition empty_graph (n : nat) : Graph :=
  foldl (fun gr u => add_node u gr) {| nodes := []; adj := ∅ |} (seq 0 n).

(** [itertools.combinations(range(n), 2)]. *)
Definition combinations (n : nat) : list (nat * nat) :=
  flat_map (fun i => map (fun j => (i, j)) (seq (S i) (n - S i))) (seq 0 n).

Definition add_edges_from (es : list (nat * nat)) (gr : Graph) : Graph :=
  foldl (fun acc e => add_edge (fst e) (snd e) acc) gr es.

(** The loop of [gnp_random_graph]: one draw per unordered pair. *)
Fixpoint gnp_loop (p : Q) (es : list (nat * nat)) (gr : Graph) (g : Rng)
  : Graph * Rng :=
  match es with
  | [] => (gr, g)
  | (u, v) :: es' =>
      let (d, g') := rng_next g in
      gnp_loop p es' (if Qltb d p then add_edge u v gr else gr) g'
  end.

(** [nx.erdos_renyi_graph(n, p)] with the default [seed=None], which
    draws from the process-wide generator. *)
Definition erdos_renyi_graph (n : nat) (p : Q) (g : Rng) : Graph * Rng :=
  let gr := empty_graph n in
  if Qle_bool p 0 then (gr, g)
  else if Qle_bool 1 p then (add_edges_from (combinations n) gr, g)
  else gnp_loop p (combinations n) gr g.

(** ** The module-level state *)

Inductive Role := Honest | Selfish | Malicious.

Record World := mkWorld {
  G : Graph;
  roles : gmap nat Role;
  trust_scores : gmap nat Q;
  energy : gmap nat Q;
  packets_sent : gmap nat Z;
  packets_received : gmap nat Z;
  packets_dropped : gmap nat Z;
  rng : Rng
}.

(** The state before line 22 runs: no graph, empty dictionaries. *)
Definition blank (g : Rng) : World :=
  mkWorld {| nodes := []; adj := ∅ |} ∅ ∅ ∅ ∅ ∅ ∅ g.

Definition with_G (gr : Graph) (w : World) : World :=
  mkWorld gr (roles w) (trust_scores w) (energy w)
    (packets_sent w) (packets_received w) (packets_dropped w) (rng w).
Definition with_roles (m : gmap nat Role) (w : World) : World :=
  mkWorld (G w) m (trust_scores w) (energy w)
    (packets_sent w) (packets_received w) (packets_dropped w) (rng w).
Definition with_trust (m : gmap nat Q) (w : World) : World :=
  mkWorld (G w) (roles w) m (energy w)
    (packets_sent w) (packets_received w) (packets_dropped w) (rng w).
Definition with_energy (m : gmap nat Q) (w : World) : World :=
  mkWorld (G w) (roles w) (trust_scores w) m
    (packets_sent w) (packets_received w) (packets_dropped w) (rng w).
Definition with_sent (m : gmap nat Z) (w : World) : World :=
  mkWorld (G w) (roles w) (trust_scores w) (energy w)
    m (packets_received w) (packets_dropped w) (rng w).
Definition with_received (m : gmap nat Z) (w : World) : World :=
  mkWorld (G w) (roles w) (trust_scores w) (energy w)
    (packets_sent w) m (packets_dropped w) (rng w).
Definition with_dropped (m : gmap nat Z) (w : World) : World :=
  mkWorld (G w) (roles w) (trust_scores w) (energy w)
    (packets_sent w) (packets_received w) m (rng w).
Definition with_rng (g : Rng) (w : World) : World :=
  mkWorld (G w) (roles w) (trust_scores w) (energy w)
    (packets_sent w) (packets_received w) (packets_dropped w) g.

(** ** The monad: state and Python exceptions *)

Inductive Exn := KeyError (k : nat) | IndexError.

Inductive Res (A : Type) :=
| Ok (a : A) (w : World)
| Raise (e : Exn) (w : World).
Arguments Ok {A} a w.
Arguments Raise {A} e w.

Definition M (A : Type) : Type := World -> Res A.

#[export] Instance M_ret : MRet M := fun A a w => Ok a w.
#[export] Instance M_bind : MBind M := fun A B f m w =>
  match m w with
  | Ok a w' => f a w'
  | Raise e w' => Raise e w'
  end.

Definition raise {A} (e : Exn) : M A := fun w => Raise e w.
Definition world_of {A} (r : Res A) : World :=
  match r with Ok _ w => w | Raise _ w => w end.

(** Reading [d[k]] and writing [d[k] = v] for each dictionary. *)
Definition dict_get {V} (d : World -> gmap nat V) (k : nat) : M V := fun w =>
  match d w !! k with
  | Some v => Ok v w
  | None => Raise (KeyError k) w
  end.
Definition modify (f : World -> World) : M unit := fun w => Ok tt (f w).

Definition set_role k v := modify (fun w => with_roles (<[k := v]> (roles w)) w).
Definition set_trust k v :=
  modify (fun w => with_trust (<[k := v]> (trust_scores w)) w).
Definition set_energy k v := modify (fun w => with_energy (<[k := v]> (energy w)) w).
Definition set_sent k v :=
  modify (fun w => with_sent (<[k := v]> (packets_sent w)) w).
Definition set_received k v :=
  modify (fun w => with_received (<[k := v]> (packets_received w)) w).
Definition set_dropped k v :=
  modify (fun w => with_dropped (<[k := v]> (packets_dropped w)) w).

(** [random.random()]: the next draw, in [0,1). *)
Definition random : M Q := fun w =>
  let (d, g') := rng_next (rng w) in Ok d (with_rng g' w).

(** [random.uniform(a, b)] is [a + (b - a) * random()]. *)
Definition uniform (a b : Q) : M Q := d ← random; mret (a + (b - a) * d).

(** The same with the three roundings of its float operations. *)
Definition uniform_b64 (a b : Q) : M Q :=
  d ← random; mret (fadd a (fmul (fsub b a) d)).

(** [random.choice(seq)]: [IndexError] on an empty sequence, otherwise
    the element at an index below [len(seq)] obtained from the generator,
    here [floor(d * len(seq))] for the next draw [d]. *)
Definition choice_index (d : Q) (len : nat) : nat :=
  Z.to_nat (Qfloor (d * inject_Z (Z.of_nat len))).
Definition choice {A} (l : list A) : M A :=
  match l with
  | [] => raise IndexError
  | _ => d ← random;
         match l !! choice_index d (length l) with
         | Some x => mret x
         | None => raise IndexError
         end
  end.

(** [list(G.neighbors(sender))]; the error networkx raises for an unknown
    node is folded into [KeyError]. *)
Definition neighbors (s : nat) : M (list nat) := fun w =>
  match adj (G w) !! s with
  | Some l => Ok l w
  | None => Raise (KeyError s) w
  end.

(** ** Module initialisation (lines 22-36) *)

Definition init_node (node : nat) : M unit :=
  r ← choice [Honest; Selfish; Malicious];
  set_role node r;;
  set_trust node 1;;
  set_energy node 100;;
  set_sent node 0%Z;;
  set_received node 0%Z;;
  set_dropped node 0%Z.

Fixpoint for_each {A} (l : list A) (body : A -> M unit) : M unit :=
  match l with
  | [] => mret tt
  | x :: l' => body x;; for_each l' body
  end.

(** Initialisation with the edge probability as a parameter; the source
    passes the literal 0.4. *)
Definition initialize (p : Q) (num_nodes : nat) : M unit :=
  fun w =>
    let (gr, g') := erdos_renyi_graph num_nodes p (rng w) in
    for_each (nodes gr) init_node (with_rng g' (with_G gr w)).

Definition module_init (num_nodes : nat) : M unit := initialize (2 # 5) num_nodes.

(** ** The updater (lines 40-45) *)

(** As CPython evaluates it: every operation rounds to binary64. *)
Definition update_trust_energy_b64 (sender : nat) (success : bool) : M unit :=
  (if success then
     t ← dict_get trust_scores sender;
     set_trust sender (py_min 1 (fadd t double_0_05))
   else
     t ← dict_get trust_scores sender;
     set_trust sender (py_max 0 (fsub t double_0_1)));;
  e ← dict_get energy sender;
  u ← uniform_b64 (1 # 2) 2;
  set_energy sender (py_max 0 (fsub e u)).

(** In exact arithmetic, with the literals at their decimal values. *)
Definition update_trust_energy (sender : nat) (success : bool) : M unit :=
  (if success then
     t ← dict_get trust_scores sender;
     set_trust sender (py_min 1 (t + (1 # 20)))
   else
     t ← dict_get trust_scores sender;
     set_trust sender (py_max 0 (t - (1 # 10))));;
  e ← dict_get energy sender;
  u ← uniform (1 # 2) 2;
  set_energy sender (py_max 0 (e - u)).

(** ** The behaviour policy (lines 55-60) *)

Definition policy (behavior : Role) (d : Q) : bool :=
  match behavior with
  | Honest => true
  | Selfish => Qltb double_0_4 d
  | Malicious => Qltb double_0_8 d
  end.

Definition attempt (behavior : Role) : M bool :=
  match behavior with
  | Honest => mret true
  | Selfish => d ← random; mret (Qltb double_0_4 d)
  | Malicious => d ← random; mret (Qltb double_0_8 d)
  end.

(** ** One step (lines 47-69) *)

Definition Outcome : Type := nat * nat * bool.

Definition simulate_step : M (option Outcome) :=
  ns ← (fun w => Ok (nodes (G w)) w);
  sender ← choice ns;
  nbrs ← neighbors sender;
  match nbrs with
  | [] => mret None
  | _ =>
      receiver ← choice nbrs;
      behavior ← dict_get roles sender;
      success ← attempt behavior;
      ps ← dict_get packets_sent sender;
      set_sent sender (ps + 1)%Z;;
      (if success then
         pr ← dict_get packets_received receiver;
         set_received receiver (pr + 1)%Z
       else
         pd ← dict_get packets_dropped sender;
         set_dropped sender (pd + 1)%Z);;
      update_trust_energy sender success;;
      mret (Some (sender, receiver, success))
  end.

(** ** The classifier (lines 112 and 167) *)

(** [[n for n, t in trust_scores.items() if t < 0.4]]. *)
Definition detected_of (ts : gmap nat Q) : list nat :=
  omap (fun nt => if Qltb (snd nt) (2 # 5) then Some (fst nt) else None)
       (map_to_list ts).

Definition detected : M (list nat) := fun w => Ok (detected_of (trust_scores w)) w.

(** ** The aggregate counters shown by the metrics and the report *)

Definition sum_values (m : gmap nat Z) : Z :=
  map_fold (fun _ v acc => (v + acc)%Z) 0%Z m.

(** ** The run loop (lines 126-130) *)

Fixpoint run_loop (k : nat) : M (list (option Outcome)) :=
  match k with
  | O => mret []
  | S k' => r ← simulate_step; rs ← run_loop k'; mret (r :: rs)
  end.

(** A whole run of the script: initialisation, then fifty steps. *)
Definition run (num_nodes : nat) : M (list (option Outcome)) :=
  module_init num_nodes;; run_loop 50.

(** The state reached after [k] iterations of the loop. *)
Definition after (k : nat) (w : World) : World := world_of (run_loop k w).

(** ** Concrete generators *)

Lemma in_unit_mod (a b : nat) :
  in_unit (Z.of_nat (a mod S b) # Pos.of_succ_nat b) = true.
Proof.
  unfold in_unit, Qltb, Qle_bool; simpl.
  pose proof (Nat.mod_upper_bound a (S b) ltac:(lia)) as Hlt.
  apply andb_true_intro; split.
  - apply Z.leb_le. lia.
  - apply negb_true_iff, Z.leb_gt. lia.
Qed.

(** The draw [(a mod (b+1)) / (b+1)]. *)
Definition frac_draw (a b : nat) : UnitDraw :=
  mkDraw (Z.of_nat (a mod S b) # Pos.of_succ_nat b) (in_unit_mod a b).

(** A generator whose [i]-th draw is [((m*i + c) mod 10) / 10]. *)
Definition linear_rng (m c : nat) : Rng :=
  mkRng (fun i => frac_draw (m * i + c) 9) 0.

(** ** The colour of a node (lines 71-80) *)

Definition get_node_color (node : nat) : M string :=
  t ← dict_get trust_scores node;
  mret (if Qltb (3 # 4) t then "#00b300"
        else if Qltb (1 # 2) t then "#ffaa00"
        else if Qltb (1 # 4) t then "#ff6600"
        else "#ff0000")%string.

(** ** Formatted values *)

(** Numbers and texts handed to the display and to the report.  The
    conversions to text are kept symbolic: [Fixed d q] is [q] under the
    format [.df], [Rounded d q] is [round(q, d)], [Padded k _] is a value
    left-aligned in [k] columns. *)
Inductive Piece :=
| Lit (s : string)
| Int (z : Z)
| Fixed (digits : nat) (q : Q)
| Rounded (digits : nat) (q : Q)
| PaddedNode (width : nat) (n : nat)
| PaddedRole (width : nat) (r : Role)
| NodeList (l : list nat).

(** A list comprehension [[f(x) for x in l]] whose body may raise. *)
Fixpoint comprehension {A B} (f : A -> M B) (l : list A) : M (list B) :=
  match l with
  | [] => mret []
  | x :: l' => y ← f x; ys ← comprehension f l'; mret (y :: ys)
  end.

Definition graph_nodes : M (list nat) := fun w => Ok (nodes (G w)) w.

(** [sum(d.values())] for a counter dictionary [d]. *)
Definition total_of (d : World -> gmap nat Z) : M Z :=
  fun w => Ok (sum_values (d w)) w.

(** ** What one displayed step shows (lines 132-171) *)

Inductive Banner :=
| SuspiciousNodes (l : list nat)
| NetworkStable.

Record Frame := mkFrame {
  fr_step : nat;
  fr_outcome : Outcome;
  fr_node_color : list string;
  fr_node_size : list Q;
  fr_edge_color : string;
  fr_table : list (nat * Role * Piece * Piece);
  fr_sent : Z;
  fr_received : Z;
  fr_dropped : Z;
  fr_banner : Banner
}.

(** Line 136. *)
Definition node_colors : M (list string) :=
  ns ← graph_nodes; comprehension get_node_color ns.

(** Line 137. *)
Definition node_sizes : M (list Q) :=
  ns ← graph_nodes;
  comprehension (fun n => e ← dict_get energy n; mret (e * 6)) ns.

(** Line 140. *)
Definition edge_color (success : bool) : string :=
  if success then "lime"%string else "red"%string.

(** Lines 153-160. *)
Definition table_row (n : nat) : M (nat * Role * Piece * Piece) :=
  r ← dict_get roles n;
  t ← dict_get trust_scores n;
  e ← dict_get energy n;
  mret (n, r, Rounded 2 t, Fixed 1 e).

Definition table_data : M (list (nat * Role * Piece * Piece)) :=
  ns ← graph_nodes; comprehension table_row ns.

(** Lines 167-171. *)
Definition banner : M Banner :=
  d ← detected;
  mret (match d with [] => NetworkStable | _ => SuspiciousNodes d end).

(** The body of the loop for a completed step; the title shows
    [step + 1]. *)
Definition render (step : nat) (result : Outcome) : M Frame :=
  colors ← node_colors;
  sizes ← node_sizes;
  table ← table_data;
  sent ← total_of packets_sent;
  received ← total_of packets_received;
  dropped ← total_of packets_dropped;
  b ← banner;
  mret (mkFrame (S step) result colors sizes (edge_color (snd result)) table
          sent received dropped b).

(** Lines 126-173: a step that returns nothing is skipped, a completed
    step is displayed. *)
Fixpoint simulation_loop (steps : list nat) : M (list Frame) :=
  match steps with
  | [] => mret []
  | step :: rest =>
      result ← simulate_step;
      match result with
      | None => simulation_loop rest
      | Some o =>
          f ← render step o;
          fs ← simulation_loop rest;
          mret (f :: fs)
      end
  end.

Definition simulation : M (list Frame) := simulation_loop (seq 0 50).

(** ** The report (lines 83-121) *)

(** The calls made on the reportlab canvas, in order. *)
Inductive PdfCmd :=
| SetFont (name : string) (size : Z)
| DrawString (x y : Q) (text : list Piece)
| ShowPage
| Save.

(** The height of [reportlab.lib.pagesizes.A4], [297 * mm] with
    [mm = 72 / 25.4] points. *)
Definition A4_height : Q := 297 * (72 / (254 # 10)).

(** The f-string of line 102. *)
Definition report_row (n : nat) : M (list Piece) :=
  r ← dict_get roles n;
  t ← dict_get trust_scores n;
  e ← dict_get energy n;
  ps ← dict_get packets_sent n;
  pr ← dict_get packets_received n;
  pd ← dict_get packets_dropped n;
  mret [PaddedNode 4 n; Lit " | "; PaddedRole 9 r; Lit " | "; Fixed 2 t;
        Lit " | "; Fixed 1 e; Lit "% | "; Int ps; Lit " | "; Int pr;
        Lit " | "; Int pd].

(** The loop of lines 101-106, with the running [y] and the calls made so
    far. *)
Fixpoint report_rows (ns : list nat) (y : Q) (acc : list PdfCmd)
  : M (Q * list PdfCmd) :=
  match ns with
  | [] => mret (y, acc)
  | n :: ns' =>
      text ← report_row n;
      let acc1 := acc ++ [DrawString 50 y text] in
      let y1 := y - 15 in
      if Qltb y1 100
      then report_rows ns' (A4_height - 100) (acc1 ++ [ShowPage])
      else report_rows ns' y1 acc1
  end.

(** [generate_pdf_report()]; [stamp] and [date] are the two formatted
    readings of [datetime.now()].  It returns the file name and the calls
    made on the canvas. *)
Definition generate_pdf_report (stamp date : string)
  : M (string * list PdfCmd) :=
  let filename := ("CNT_Sim_Report_" +:+ stamp +:+ ".pdf")%string in
  let height := A4_height in
  ns ← graph_nodes;
  let head : list PdfCmd :=
    [SetFont "Helvetica-Bold" 16;
     DrawString 150 (height - 60)
       [Lit "Cooperative Node Trust Simulator ++ Report"];
     SetFont "Helvetica" 12;
     DrawString 50 (height - 100) [Lit "Date: "; Lit date];
     DrawString 50 (height - 120)
       [Lit "Total Nodes: "; Int (Z.of_nat (length ns))];
     SetFont "Helvetica-Bold" 12;
     DrawString 50 (height - 160)
       [Lit "Node | Role | Trust | Energy | Sent | Received | Dropped"];
     SetFont "Helvetica" 11] in
  yr ← report_rows ns (height - 160 - 20) head;
  let y := fst yr in
  let rows := snd yr in
  let summary :=
    [SetFont "Helvetica-Bold" 12;
     DrawString 50 (y - 20) [Lit "Summary:"];
     SetFont "Helvetica" 11] in
  let y1 := y - 40 in
  d ← detected;
  let line1 :=
    DrawString 50 y1
      [Lit "Detected Suspicious Nodes: ";
       match d with [] => Lit "None" | _ => NodeList d end] in
  let y2 := y1 - 20 in
  sent ← total_of packets_sent;
  let line2 := DrawString 50 y2 [Lit "Total Packets Sent: "; Int sent] in
  let y3 := y2 - 20 in
  received ← total_of packets_received;
  let line3 :=
    DrawString 50 y3 [Lit "Total Packets Received: "; Int received] in
  let y4 := y3 - 20 in
  dropped ← total_of packets_dropped;
  let line4 :=
    DrawString 50 y4 [Lit "Total Packets Dropped: "; Int dropped] in
  mret (filename, rows ++ summary ++ [line1; line2; line3; line4; Save]).

(** * Vocabulary of the properties *)

(** The index that [random.choice] reads in a list of the given length. *)
Definition next_index (w : World) (len : nat) : nat :=
  choice_index (fst (rng_next (rng w))) len.
Definition advance (w : World) : World := with_rng (snd (rng_next (rng w))) w.

(** The energy cost drawn by [random.uniform(0.5, 2.0)] in state [w]. *)
Definition energy_cost (w : World) : Q :=
  (1 # 2) + (2 - (1 # 2)) * fst (rng_next (rng w)).

Definition new_trust (success : bool) (t : Q) : Q :=
  if success then py_min 1 (t + (1 # 20)) else py_max 0 (t - (1 # 10)).

(** The same two values as binary64 computes them. *)
Definition energy_cost_b64 (w : World) : Q :=
  fadd (1 # 2) (fmul (fsub 2 (1 # 2)) (fst (rng_next (rng w)))).

Definition new_trust_b64 (success : bool) (t : Q) : Q :=
  if success then py_min 1 (fadd t double_0_05)
  else py_max 0 (fsub t double_0_1).

Definition has_key {V} (m : gmap nat V) (k : nat) : bool :=
  match m !! k with Some _ => true | None => false end.

(** A node is in order when the graph knows its neighbours, each of them
    is a node other than itself, and every dictionary has its entry. *)
Definition node_ok (w : World) (u : nat) : bool :=
  match adj (G w) !! u with
  | Some l =>
      forallb (fun v => bool_decide (v ∈ nodes (G w)) && negb (Nat.eqb v u)) l
  | None => false
  end
  && has_key (roles w) u && has_key (trust_scores w) u && has_key (energy w) u
  && has_key (packets_sent w) u && has_key (packets_received w) u
  && has_key (packets_dropped w) u.

Definition world_ok (w : World) : bool := forallb (node_ok w) (nodes (G w)).

Definition after_attempt (behavior : Role) (w : World) : World :=
  match behavior with Honest => w | _ => advance w end.

(** The sender that [random.choice(list(G.nodes))] draws in state [w]. *)
Definition drawn_sender (w : World) : option nat :=
  nodes (G w) !! next_index w (length (nodes (G w))).

(** The receiver drawn among [nbrs] once the sender has been drawn. *)
Definition drawn_receiver (w : World) (nbrs : list nat) : option nat :=
  nbrs !! next_index (advance w) (length nbrs).

(** The state in which the behaviour policy of the step runs. *)
Definition at_policy (w : World) : World := advance (advance w).

Definition step_success (w : World) (behavior : Role) : bool :=
  policy behavior (fst (rng_next (rng (at_policy w)))).

(** The state in which the updater of the step runs: counters bumped,
    trust and energy still those of [w]. *)
Definition counted (w : World) (s r : nat) (behavior : Role) (b : bool)
    (ps pr pd : Z) : World :=
  mkWorld (G w) (roles w) (trust_scores w) (energy w)
    (<[s := (ps + 1)%Z]> (packets_sent w))
    (if b then <[r := (pr + 1)%Z]> (packets_received w) else packets_received w)
    (if b then packets_dropped w else <[s := (pd + 1)%Z]> (packets_dropped w))
    (rng (after_attempt behavior (at_policy w))).

(** What a completed step reads from the state before it writes. *)
Record Reads := mkReads {
  rd_sender : nat;
  rd_receiver : nat;
  rd_nbrs : list nat;
  rd_role : Role;
  rd_sent : Z;
  rd_received : Z;
  rd_dropped : Z;
  rd_trust : Q;
  rd_energy : Q
}.

Definition reads (w : World) (d : Reads) : Prop :=
  drawn_sender w = Some (rd_sender d) /\
  adj (G w) !! rd_sender d = Some (rd_nbrs d) /\
  drawn_receiver w (rd_nbrs d) = Some (rd_receiver d) /\
  roles w !! rd_sender d = Some (rd_role d) /\
  packets_sent w !! rd_sender d = Some (rd_sent d) /\
  packets_received w !! rd_receiver d = Some (rd_received d) /\
  packets_dropped w !! rd_sender d = Some (rd_dropped d) /\
  trust_scores w !! rd_sender d = Some (rd_trust d) /\
  energy w !! rd_sender d = Some (rd_energy d).

Definition rd_success (w : World) (d : Reads) : bool := step_success w (rd_role d).

Definition rd_counted (w : World) (d : Reads) : World :=
  counted w (rd_sender d) (rd_receiver d) (rd_role d) (rd_success w d)
    (rd_sent d) (rd_received d) (rd_dropped d).

(** The state a completed step leaves. *)
Definition completed_world (w : World) (d : Reads) : World :=
  let wc := rd_counted w d in
  mkWorld (G w) (roles w)
    (<[rd_sender d := new_trust (rd_success w d) (rd_trust d)]> (trust_scores w))
    (<[rd_sender d := py_max 0 (rd_energy d - energy_cost wc)]> (energy w))
    (packets_sent wc) (packets_received wc) (packets_dropped wc)
    (snd (rng_next (rng wc))).

Record Inv (w : World) : Prop := mkInv {
  inv_ok : world_ok w = true;
  inv_trust : forall s t, trust_scores w !! s = Some t -> 0 <= t <= 1;
  inv_energy : forall s e, energy w !! s = Some e -> 0 <= e <= 100;
  inv_sent : forall s c, packets_sent w !! s = Some c -> (0 <= c)%Z;
  inv_received : forall s c, packets_received w !! s = Some c -> (0 <= c)%Z;
  inv_dropped : forall s c, packets_dropped w !! s = Some c -> (0 <= c)%Z;
  inv_conserved :
    (sum_values (packets_received w) + sum_values (packets_dropped w)
     = sum_values (packets_sent w))%Z
}.

Definition grows (m m' : gmap nat Z) : Prop :=
  forall s c, m !! s = Some c -> exists c', m' !! s = Some c' /\ (c <= c')%Z.

Definition shrinks (m m' : gmap nat Q) : Prop :=
  forall s e, m !! s = Some e -> exists e', m' !! s = Some e' /\ e' <= e.

(** How a later state relates to an earlier one. *)
Record Mono (w w' : World) : Prop := mkMono {
  mono_G : G w' = G w;
  mono_roles : roles w' = roles w;
  mono_energy : shrinks (energy w) (energy w');
  mono_sent : grows (packets_sent w) (packets_sent w');
  mono_received : grows (packets_received w) (packets_received w');
  mono_dropped : grows (packets_dropped w) (packets_dropped w')
}.

(** Every node has an adjacency entry; every listed neighbour is a node
    and is not the node itself. *)
Definition graph_wf (gr : Graph) : Prop :=
  (forall u, u ∈ nodes gr -> is_Some (adj gr !! u)) /\
  (forall u l v, adj gr !! u = Some l -> v ∈ l -> v ∈ nodes gr /\ v <> u).

(** Edges between distinct existing nodes keep the node list and the
    well-formedness. *)
Definition edges_within (gr : Graph) (es : list (nat * nat)) : Prop :=
  forall u v, (u, v) ∈ es -> u ∈ nodes gr /\ v ∈ nodes gr /\ u <> v.

(** The attributes lines 31-36 give a node. *)
Definition initial_at (u : nat) (w : World) : Prop :=
  is_Some (roles w !! u) /\
  trust_scores w !! u = Some 1 /\ energy w !! u = Some 100 /\
  packets_sent w !! u = Some 0%Z /\ packets_received w !! u = Some 0%Z /\
  packets_dropped w !! u = Some 0%Z.

Definition same_at (u : nat) (w w' : World) : Prop :=
  roles w' !! u = roles w !! u /\
  trust_scores w' !! u = trust_scores w !! u /\
  energy w' !! u = energy w !! u /\
  packets_sent w' !! u = packets_sent w !! u /\
  packets_received w' !! u = packets_received w !! u /\
  packets_dropped w' !! u = packets_dropped w !! u.

(** The state after initialisation. *)
Definition initial_world (p : Q) (num_nodes : nat) (g : Rng) : World :=
  world_of (initialize p num_nodes (blank g)).

(** The store of the spec's example: [{0: 0.9, 1: 0.3, 2: 0.39, 3: 0.4}]. *)
Definition example_trust : gmap nat Q :=
  list_to_map [(0%nat, 9 # 10); (1%nat, 3 # 10); (2%nat, 39 # 100); (3%nat, 2 # 5)].

(** The values [random.random()] returns: CPython builds them as
    [(a * 2^26 + b) / 2^53] from 27 and 26 generator bits, so they are the
    multiples [k / 2^53], [0 <= k < 2^53], each as likely as any other. *)
Definition random_value (k : N) : Q := Z.of_N k # 9007199254740992.

(** The number of [k < m] on which [f] holds. *)
Definition count_below (f : N -> bool) (m : N) : N :=
  N.peano_rect (fun _ => N) 0%N
    (fun k acc => if f k then N.succ acc else acc) m.

(** On how many of the values of [random.random()] the policy returns
    success, and the probability of success. *)
Definition successes (behavior : Role) : N :=
  count_below (fun k => policy behavior (random_value k)) 9007199254740992.

Definition success_probability (behavior : Role) : Q :=
  Z.of_N (successes behavior) # 9007199254740992.

(** Equality of every attribute; only the generator may differ. *)
Definition same_attributes (w w' : World) : Prop :=
  G w' = G w /\ roles w' = roles w /\
  trust_scores w' = trust_scores w /\ energy w' = energy w /\
  packets_sent w' = packets_sent w /\
  packets_received w' = packets_received w /\
  packets_dropped w' = packets_dropped w.

(** Five nodes, initialised with the draws of [linear_rng 7 3]: nodes 0, 1
    and 4 are Honest, node 2 is Malicious, node 3 is Selfish; node 4 has no
    neighbour. *)
Definition sample_world : World := initial_world (2 # 5) 5 (linear_rng 7 3).

(** The same world one loop iteration later; the next sender drawn is
    node 2, whose neighbours are 0, 1 and 3. *)
Definition sample_world_1 : World := after 1 sample_world.

(** A store whose trusts are the doubles 0.9, 0.39999999999999997 and
    0.4. *)
Definition example_doubles : gmap nat Q :=
  list_to_map [(0%nat, 8106479329266893 # 9007199254740992);
               (1%nat, 7205759403792793 # 18014398509481984);
               (2%nat, double_0_4)].

(** [sample_world] with the trust of node 2 at the double 0.9. *)
Definition sample_world_09 : World :=
  with_trust (<[2%nat := 8106479329266893 # 9007199254740992]>
                (trust_scores sample_world)) sample_world.

(** Facts that tie the trust and the energy of a node to its counters. *)
Record Audit (w : World) : Prop := mkAudit {
  audit_honest : forall s,
    roles w !! s = Some Honest ->
    trust_scores w !! s = Some 1 /\ packets_dropped w !! s = Some 0%Z;
  audit_trust : forall s t d,
    trust_scores w !! s = Some t -> packets_dropped w !! s = Some d ->
    1 - inject_Z d * (1 # 10) <= t;
  audit_energy : forall s e c,
    energy w !! s = Some e -> packets_sent w !! s = Some c ->
    100 - 2 * inject_Z c <= e /\ (e == 0 \/ e <= 100 - inject_Z c * (1 # 2));
  audit_dropped : forall s d c,
    packets_dropped w !! s = Some d -> packets_sent w !! s = Some c ->
    (d <= c)%Z;
  audit_keys : forall s,
    s ∉ nodes (G w) ->
    trust_scores w !! s = None /\ energy w !! s = None /\
    packets_sent w !! s = None /\ packets_received w !! s = None /\
    packets_dropped w !! s = None
}.

(** How many completed steps of a log satisfy [f]. *)
Definition tally (f : Outcome -> bool) (rs : list (option Outcome)) : Z :=
  foldr (fun r acc =>
           match r with
           | Some o => if f o then (1 + acc)%Z else acc
           | None => acc
           end) 0%Z rs.

Definition is_send (s : nat) (o : Outcome) : bool := Nat.eqb (fst (fst o)) s.
Definition is_receipt (r : nat) (o : Outcome) : bool :=
  Nat.eqb (snd (fst o)) r && snd o.
Definition is_drop (s : nat) (o : Outcome) : bool :=
  Nat.eqb (fst (fst o)) s && negb (snd o).
Definition is_completed (o : Outcome) : bool := true.

(** The counters of [w'] are those of [w] plus what the log [rs] records. *)
Definition logged (w w' : World) (rs : list (option Outcome)) : Prop :=
  (forall s c, packets_sent w !! s = Some c ->
     packets_sent w' !! s = Some (c + tally (is_send s) rs)%Z) /\
  (forall s c, packets_received w !! s = Some c ->
     packets_received w' !! s = Some (c + tally (is_receipt s) rs)%Z) /\
  (forall s c, packets_dropped w !! s = Some c ->
     packets_dropped w' !! s = Some (c + tally (is_drop s) rs)%Z) /\
  sum_values (packets_sent w') =
    (sum_values (packets_sent w) + tally is_completed rs)%Z.

(** The colour band of a trust value. *)
Definition trust_color (t : Q) : string :=
  (if Qltb (3 # 4) t then "#00b300"
   else if Qltb (1 # 2) t then "#ffaa00"
   else if Qltb (1 # 4) t then "#ff6600"
   else "#ff0000")%string.

(** Attributes of a node that is known to have them. *)
Definition trust_at (w : World) (n : nat) : Q := default 0 (trust_scores w !! n).
Definition energy_at (w : World) (n : nat) : Q := default 0 (energy w !! n).
Definition role_at (w : World) (n : nat) : Role := default Honest (roles w !! n).
Definition sent_at (w : World) (n : nat) : Z := default 0%Z (packets_sent w !! n).
Definition received_at (w : World) (n : nat) : Z :=
  default 0%Z (packets_received w !! n).
Definition dropped_at (w : World) (n : nat) : Z :=
  default 0%Z (packets_dropped w !! n).

Definition banner_of (w : World) : Banner :=
  match detected_of (trust_scores w) with
  | [] => NetworkStable
  | d => SuspiciousNodes d
  end.

(** The frame displayed in state [w] for the completed step [o]. *)
Definition frame_of (w : World) (step : nat) (o : Outcome) : Frame :=
  mkFrame (S step) o
    (map (fun n => trust_color (trust_at w n)) (nodes (G w)))
    (map (fun n => energy_at w n * 6) (nodes (G w)))
    (edge_color (snd o))
    (map (fun n => (n, role_at w n, Rounded 2 (trust_at w n),
                    Fixed 1 (energy_at w n))) (nodes (G w)))
    (sum_values (packets_sent w)) (sum_values (packets_received w))
    (sum_values (packets_dropped w)) (banner_of w).

(** The completed steps of a log, each with the number its title shows. *)
Fixpoint shown (steps : list nat) (rs : list (option Outcome))
  : list (nat * Outcome) :=
  match steps, rs with
  | step :: steps', Some o :: rs' => (S step, o) :: shown steps' rs'
  | _ :: steps', None :: rs' => shown steps' rs'
  | _, _ => []
  end.

(** What every displayed frame satisfies, for [n] nodes. *)
Definition frame_ok (n : nat) (f : Frame) : Prop :=
  length (fr_node_color f) = n /\ length (fr_node_size f) = n /\
  length (fr_table f) = n /\
  Forall (fun x => 0 <= x <= 600) (fr_node_size f) /\
  Forall (fun c => c ∈ ["#00b300"; "#ffaa00"; "#ff6600"; "#ff0000"]%string)
         (fr_node_color f) /\
  (fr_received f + fr_dropped f = fr_sent f)%Z /\
  (fr_edge_color f = "lime"%string <-> snd (fr_outcome f) = true).

(** The text of the report row of node [n] in state [w]. *)
Definition row_text (w : World) (n : nat) : list Piece :=
  [PaddedNode 4 n; Lit " | "; PaddedRole 9 (role_at w n); Lit " | ";
   Fixed 2 (trust_at w n); Lit " | "; Fixed 1 (energy_at w n); Lit "% | ";
   Int (sent_at w n); Lit " | "; Int (received_at w n); Lit " | ";
   Int (dropped_at w n)].

(** The calls the row loop makes from height [y], and the height it ends
    at. *)
Fixpoint rows_cmds (w : World) (ns : list nat) (y : Q) : Q * list PdfCmd :=
  match ns with
  | [] => (y, [])
  | n :: ns' =>
      let row := DrawString 50 y (row_text w n) in
      if Qltb (y - 15) 100
      then (fst (rows_cmds w ns' (A4_height - 100)),
            row :: ShowPage :: snd (rows_cmds w ns' (A4_height - 100)))
      else (fst (rows_cmds w ns' (y - 15)),
            row :: snd (rows_cmds w ns' (y - 15)))
  end.

Definition report_head (date : string) (count : nat) : list PdfCmd :=
  [SetFont "Helvetica-Bold" 16;
   DrawString 150 (A4_height - 60)
     [Lit "Cooperative Node Trust Simulator ++ Report"];
   SetFont "Helvetica" 12;
   DrawString 50 (A4_height - 100) [Lit "Date: "; Lit date];
   DrawString 50 (A4_height - 120)
     [Lit "Total Nodes: "; Int (Z.of_nat count)];
   SetFont "Helvetica-Bold" 12;
   DrawString 50 (A4_height - 160)
     [Lit "Node | Role | Trust | Energy | Sent | Received | Dropped"];
   SetFont "Helvetica" 11].

(** What the detected line prints.  Dictionaries are finite maps here, so
    the order in which the nodes are listed is not modelled. *)
Definition detected_text (w : World) : Piece :=
  match detected_of (trust_scores w) with
  | [] => Lit "None"
  | d => NodeList d
  end.

Definition report_summary (w : World) (y : Q) : list PdfCmd :=
  [SetFont "Helvetica-Bold" 12;
   DrawString 50 (y - 20) [Lit "Summary:"];
   SetFont "Helvetica" 11;
   DrawString 50 (y - 40) [Lit "Detected Suspicious Nodes: "; detected_text w];
   DrawString 50 (y - 40 - 20)
     [Lit "Total Packets Sent: "; Int (sum_values (packets_sent w))];
   DrawString 50 (y - 40 - 20 - 20)
     [Lit "Total Packets Received: "; Int (sum_values (packets_received w))];
   DrawString 50 (y - 40 - 20 - 20 - 20)
     [Lit "Total Packets Dropped: "; Int (sum_values (packets_dropped w))];
   Save].

(** Everything [generate_pdf_report] puts on the canvas in state [w]. *)
Definition report_cmds (w : World) (date : string) : list PdfCmd :=
  let rows := rows_cmds w (nodes (G w)) (A4_height - 160 - 20) in
  report_head date (length (nodes (G w))) ++ snd rows
  ++ report_summary w (fst rows).

(** The texts of the node rows among canvas calls. *)
Definition row_texts (cmds : list PdfCmd) : list (list Piece) :=
  omap (fun c => match c with
                 | DrawString _ _ (PaddedNode k n :: t) =>
                     Some (PaddedNode k n :: t)
                 | _ => None
                 end) cmds.

(** A text call lands on the A4 page, at one of the two left margins the
    report uses. *)
Definition on_page (c : PdfCmd) : Prop :=
  match c with
  | DrawString x y _ => (x = 50 \/ x = 150) /\ 0 <= y <= A4_height
  | _ => True
  end.

(** The row loop keeps the height between 100 and the top margin. *)
Definition row_call (c : PdfCmd) : Prop :=
  match c with
  | DrawString x y _ => x = 50 /\ 100 <= y <= A4_height - 100
  | ShowPage => True
  | _ => False
  end.

(** The generator of [w'] is that of [w] after [c] more draws. *)
Definition drew (w w' : World) (c : nat) : Prop :=
  tape (rng w') = tape (rng w) /\ pos (rng w') = (pos (rng w) + c)%nat.

(** The draws one loop iteration makes, read off its result: one for a
    skipped step, three for a completed step of an Honest sender, four for
    a completed step of any other sender. *)
Definition draws_of_step (w : World) (r : option Outcome) : nat :=
  match r with
  | None => 1
  | Some o =>
      match role_at w (fst (fst o)) with
      | Honest => 3
      | _ => 4
      end
  end.

(** [v] is listed among the neighbours of [u]. *)
Definition adjacent (gr : Graph) (u v : nat) : Prop := v ∈ adj_of gr u.

(** The pair [(x, y)], in either order, is the [i]-th pair the generator
    of the topology considers. *)
Definition pair_at (n i x y : nat) : Prop :=
  combinations n !! i = Some (x, y) \/ combinations n !! i = Some (y, x).

(** * Properties *)

(** ** Numbers *)

Lemma Qltb_lt (x y : Q) : Qltb x y = true <-> x < y.
Proof.
  unfold Qltb. rewrite negb_true_iff. split.
  - intros H. apply Qnot_le_lt. intros Hle.
    apply Qle_bool_iff in Hle. congruence.
  - intros H. destruct (Qle_bool y x) eqn:E; [|reflexivity].
    apply Qle_bool_iff in E. lra.
Qed.

Lemma Qltb_ge (x y : Q) : Qltb x y = false <-> y <= x.
Proof.
  unfold Qltb. rewrite negb_false_iff. apply Qle_bool_iff.
Qed.

Lemma py_min_spec (a b : Q) : py_min a b == Qmin a b.
Proof.
  unfold py_min. destruct (Qltb b a) eqn:E.
  - apply Qltb_lt in E. symmetry. apply Q.min_r. lra.
  - apply Qltb_ge in E. symmetry. apply Q.min_l. lra.
Qed.

Lemma py_max_spec (a b : Q) : py_max a b == Qmax a b.
Proof.
  unfold py_max. destruct (Qltb a b) eqn:E.
  - apply Qltb_lt in E. symmetry. apply Q.max_r. lra.
  - apply Qltb_ge in E. symmetry. apply Q.max_l. lra.
Qed.

Lemma py_min_bounds (a b : Q) : py_min a b <= a /\ py_min a b <= b.
Proof.
  unfold py_min. destruct (Qltb b a) eqn:E;
    [apply Qltb_lt in E | apply Qltb_ge in E]; lra.
Qed.

Lemma py_max_bounds (a b : Q) : a <= py_max a b /\ b <= py_max a b.
Proof.
  unfold py_max. destruct (Qltb a b) eqn:E;
    [apply Qltb_lt in E | apply Qltb_ge in E]; lra.
Qed.

(** ** Rounding to binary64 *)

Lemma pow2_pos (z : Z) : 0 < 2 ^ z.
Proof. apply Qpower_0_lt. reflexivity. Qed.

Lemma pow2_plus (a b : Z) : 2 ^ (a + b) == 2 ^ a * 2 ^ b.
Proof. apply Qpower_plus. discriminate. Qed.

Lemma pow2_le (a b : Z) : (a <= b)%Z -> 2 ^ a <= 2 ^ b.
Proof. intros H. apply Qpower_le_compat_l; [done | discriminate]. Qed.

Lemma pow2_inject (k : Z) : (0 <= k)%Z -> inject_Z (2 ^ k) == 2 ^ k.
Proof. intros H. by rewrite Zpower_Qpower. Qed.

Lemma ilog2_spec (x : Q) :
  0 < x -> 2 ^ ilog2 x <= x /\ x < 2 ^ (ilog2 x + 1).
Proof.
  intros Hx. destruct x as [n d].
  assert (Hn : (0 < n)%Z) by (unfold Qlt in Hx; cbn in Hx; lia).
  unfold ilog2. cbn [Qnum Qden].
  set (ln := Z.log2 n). set (ld := Z.log2 (Z.pos d)).
  destruct (Z.log2_spec n Hn) as [Hn1 Hn2]. fold ln in Hn1, Hn2.
  destruct (Z.log2_spec (Z.pos d) ltac:(lia)) as [Hd1 Hd2].
  fold ld in Hd1, Hd2.
  assert (Hln : (0 <= ln)%Z) by apply Z.log2_nonneg.
  assert (Hld : (0 <= ld)%Z) by apply Z.log2_nonneg.
  unfold Z.succ in Hn2, Hd2.
  rewrite Zle_Qle, pow2_inject in Hn1 by done.
  rewrite Zlt_Qlt, pow2_inject in Hn2 by lia.
  rewrite Zle_Qle, pow2_inject in Hd1 by done.
  rewrite Zlt_Qlt, pow2_inject in Hd2 by lia.
  assert (Hdiv : n # d == inject_Z n / inject_Z (Z.pos d)) by apply Qmake_Qdiv.
  assert (HD : 0 < inject_Z (Z.pos d)) by (pose proof (pow2_pos ld); lra).
  assert (Hup : n # d < 2 ^ (ln - ld + 1)).
  { rewrite Hdiv. apply Qlt_shift_div_r; [done|].
    assert (E : 2 ^ (ln + 1) == 2 ^ (ln - ld + 1) * 2 ^ ld).
    { rewrite <- pow2_plus. by replace (ln - ld + 1 + ld)%Z with (ln + 1)%Z by lia. }
    pose proof (pow2_pos (ln - ld + 1)). nra. }
  assert (Hlo : 2 ^ (ln - ld - 1) <= n # d).
  { rewrite Hdiv. apply Qle_shift_div_l; [done|].
    assert (E : 2 ^ ln == 2 ^ (ln - ld - 1) * 2 ^ (ld + 1)).
    { rewrite <- pow2_plus. by replace (ln - ld - 1 + (ld + 1))%Z with ln by lia. }
    pose proof (pow2_pos (ln - ld - 1)). nra. }
  destruct (Qle_bool (2 ^ (ln - ld)) (n # d)) eqn:E.
  - apply Qle_bool_iff in E. by split.
  - assert (Hlt : n # d < 2 ^ (ln - ld)).
    { apply Qnot_le_lt. intros H. apply Qle_bool_iff in H. congruence. }
    split; [done|]. by replace (ln - ld - 1 + 1)%Z with (ln - ld)%Z by lia.
Qed.

Lemma ilog2_le (x y : Q) : 0 < x -> x <= y -> (ilog2 x <= ilog2 y)%Z.
Proof.
  intros Hx Hxy.
  destruct (ilog2_spec x Hx) as [H1 _].
  destruct (ilog2_spec y ltac:(lra)) as [_ H2].
  assert (H : 2 ^ ilog2 x < 2 ^ (ilog2 y + 1)) by lra.
  apply Qpower_lt_compat_l_inv in H; [lia | reflexivity].
Qed.

Lemma rne_bounds (q : Q) : (Qfloor q <= rne q <= Qfloor q + 1)%Z.
Proof.
  unfold rne.
  destruct (Qltb _ _); [lia|]. destruct (Qltb _ _); [lia|].
  destruct (Z.even _); lia.
Qed.

Lemma rne_le (q1 q2 : Q) : q1 <= q2 -> (rne q1 <= rne q2)%Z.
Proof.
  intros Hq. pose proof (Qfloor_resp_le _ _ Hq) as Hf.
  destruct (Z.eq_dec (Qfloor q1) (Qfloor q2)) as [E|N].
  - unfold rne. rewrite <- E.
    destruct (Qltb (q1 - inject_Z (Qfloor q1)) (1 # 2)) eqn:A1;
    destruct (Qltb (q2 - inject_Z (Qfloor q1)) (1 # 2)) eqn:A2;
    destruct (Qltb (1 # 2) (q1 - inject_Z (Qfloor q1))) eqn:B1;
    destruct (Qltb (1 # 2) (q2 - inject_Z (Qfloor q1))) eqn:B2;
    destruct (Z.even (Qfloor q1)); try lia;
    repeat match goal with
    | H : Qltb _ _ = true |- _ => apply Qltb_lt in H
    | H : Qltb _ _ = false |- _ => apply Qltb_ge in H
    end; lra.
  - pose proof (rne_bounds q1). pose proof (rne_bounds q2). lia.
Qed.

Lemma rne_inject (k : Z) : rne (inject_Z k) = k.
Proof.
  unfold rne. rewrite Qfloor_Z.
  assert (H : Qltb (inject_Z k - inject_Z k) (1 # 2) = true)
    by (apply Qltb_lt; lra).
  by rewrite H.
Qed.

Lemma ulp_exp_pos (x : Q) :
  0 < x -> ulp_exp x = Z.max (ilog2 x - 52) (-1074).
Proof.
  intros Hx. unfold ulp_exp. destruct x as [n d].
  assert (Hn : (0 < n)%Z) by (unfold Qlt in Hx; cbn in Hx; lia).
  unfold Qabs. by rewrite Z.abs_eq by lia.
Qed.

Lemma b64_zero (x : Q) : x == 0 -> b64 x = 0.
Proof. intros H. unfold b64. apply Qeq_bool_iff in H. by rewrite H. Qed.

Lemma b64_eq (x : Q) :
  ~ x == 0 ->
  b64 x == inject_Z (rne (x / 2 ^ ulp_exp x)) * 2 ^ ulp_exp x.
Proof.
  intros H. unfold b64. destruct (Qeq_bool x 0) eqn:E.
  - apply Qeq_bool_iff in E. done.
  - apply Qred_correct.
Qed.

Lemma b64_nonneg (x : Q) : 0 <= x -> 0 <= b64 x.
Proof.
  intros Hx. destruct (Qeq_dec x 0) as [E|N].
  - rewrite (b64_zero x E). lra.
  - rewrite (b64_eq x N). pose proof (pow2_pos (ulp_exp x)) as Hp.
    apply Qmult_le_0_compat; [|lra].
    change 0 with (inject_Z 0). rewrite <- Zle_Qle.
    assert (H : (rne (inject_Z 0) <= rne (x / 2 ^ ulp_exp x))%Z).
    { apply rne_le. change (inject_Z 0) with 0.
      apply Qle_shift_div_l; [done | lra]. }
    by rewrite rne_inject in H.
Qed.

Lemma b64_nonpos (x : Q) : x <= 0 -> b64 x <= 0.
Proof.
  intros Hx. destruct (Qeq_dec x 0) as [E|N].
  - rewrite (b64_zero x E). lra.
  - rewrite (b64_eq x N). pose proof (pow2_pos (ulp_exp x)) as Hp.
    assert (H : (rne (x / 2 ^ ulp_exp x) <= rne (inject_Z 0))%Z).
    { apply rne_le. change (inject_Z 0) with 0.
      apply Qle_shift_div_r; [done | lra]. }
    rewrite rne_inject in H. rewrite Zle_Qle in H.
    change (inject_Z 0) with 0 in H. nra.
Qed.

(** The double nearest to [x > 0] is at most the next power of two, *)
Lemma b64_upper (x : Q) :
  0 < x -> b64 x <= 2 ^ (ulp_exp x + 53).
Proof.
  intros Hx. rewrite b64_eq by lra.
  pose proof (pow2_pos (ulp_exp x)) as Hp.
  destruct (ilog2_spec x Hx) as [_ Hup].
  assert (Hc : (ilog2 x + 1 <= ulp_exp x + 53)%Z)
    by (rewrite (ulp_exp_pos x Hx); lia).
  apply pow2_le in Hc.
  assert (E : 2 ^ (ulp_exp x + 53) == 2 ^ 53 * 2 ^ ulp_exp x)
    by (rewrite Z.add_comm; apply pow2_plus).
  rewrite E. apply Qmult_le_compat_r; [|lra].
  rewrite <- (pow2_inject 53) by lia. rewrite <- Zle_Qle.
  assert (H : (rne (x / 2 ^ ulp_exp x) <= rne (inject_Z (2 ^ 53)))%Z).
  { apply rne_le. rewrite pow2_inject by lia.
    apply Qle_shift_div_r; [done|]. lra. }
  by rewrite rne_inject in H.
Qed.

(** and, when it is a normal number, at least the previous one. *)
Lemma b64_lower (x : Q) :
  0 < x -> ulp_exp x = (ilog2 x - 52)%Z -> 2 ^ ilog2 x <= b64 x.
Proof.
  intros Hx Hc. rewrite b64_eq by lra. rewrite Hc.
  pose proof (pow2_pos (ilog2 x - 52)) as Hp.
  destruct (ilog2_spec x Hx) as [Hlo _].
  assert (E : 2 ^ ilog2 x == 2 ^ 52 * 2 ^ (ilog2 x - 52)).
  { rewrite <- pow2_plus. by replace (52 + (ilog2 x - 52))%Z with (ilog2 x) by lia. }
  rewrite E at 1. apply Qmult_le_compat_r; [|lra].
  rewrite <- (pow2_inject 52) by lia. rewrite <- Zle_Qle.
  assert (H : (rne (inject_Z (2 ^ 52)) <= rne (x / 2 ^ (ilog2 x - 52)))%Z).
  { apply rne_le. rewrite pow2_inject by lia.
    apply Qle_shift_div_l; [done|]. lra. }
  by rewrite rne_inject in H.
Qed.

(** Rounding is monotone on the non-negative rationals. *)
Lemma b64_le (x y : Q) : 0 <= x -> x <= y -> b64 x <= b64 y.
Proof.
  intros Hx Hxy. destruct (Qeq_dec x 0) as [E|N].
  { rewrite (b64_zero x E). apply b64_nonneg. lra. }
  assert (Hx' : 0 < x) by lra. assert (Hy : 0 < y) by lra.
  pose proof (ilog2_le x y Hx' Hxy) as Hl.
  pose proof (ulp_exp_pos x Hx') as Cx. pose proof (ulp_exp_pos y Hy) as Cy.
  destruct (Z.eq_dec (ulp_exp x) (ulp_exp y)) as [Ec|Nc].
  - rewrite (b64_eq x), (b64_eq y) by lra. rewrite Ec.
    pose proof (pow2_pos (ulp_exp y)) as Hp.
    apply Qmult_le_compat_r; [|lra]. rewrite <- Zle_Qle. apply rne_le.
    apply Qle_shift_div_l; [done|].
    assert (Hd : x / 2 ^ ulp_exp y * 2 ^ ulp_exp y == x)
      by (field; lra).
    lra.
  - assert (Hcy : ulp_exp y = (ilog2 y - 52)%Z) by lia.
    pose proof (b64_upper x Hx') as H1.
    pose proof (b64_lower y Hy Hcy) as H2.
    assert (H3 : 2 ^ (ulp_exp x + 53) <= 2 ^ ilog2 y) by (apply pow2_le; lia).
    lra.
Qed.

(** The float literals are the doubles nearest to their decimal values,
    and lie above them. *)
Lemma float_literals :
  b64 (1 # 20) = double_0_05 /\ b64 (1 # 10) = double_0_1 /\
  b64 (2 # 5) = double_0_4 /\ b64 (4 # 5) = double_0_8 /\
  1 # 20 < double_0_05 /\ 1 # 10 < double_0_1 /\
  2 # 5 < double_0_4 /\ 4 # 5 < double_0_8.
Proof. by vm_compute. Qed.

Lemma py_min_cases (a b : Q) : py_min a b = a \/ py_min a b = b.
Proof. unfold py_min. destruct (Qltb b a); auto. Qed.

Lemma py_max_cases (a b : Q) : py_max a b = a \/ py_max a b = b.
Proof. unfold py_max. destruct (Qltb a b); auto. Qed.

(** ** The generator *)

Lemma in_unit_range (q : Q) : in_unit q = true -> 0 <= q /\ q < 1.
Proof.
  unfold in_unit. intros H. apply andb_prop in H as [H0 H1].
  split; [by apply Qle_bool_iff | by apply Qltb_lt].
Qed.

Lemma rng_next_range (g : Rng) : 0 <= fst (rng_next g) /\ fst (rng_next g) < 1.
Proof. apply in_unit_range, draw_ok. Qed.

Lemma choice_index_lt (d : Q) (len : nat) :
  0 <= d -> d < 1 -> (0 < len)%nat -> (choice_index d len < len)%nat.
Proof.
  intros H0 H1 Hlen. unfold choice_index.
  set (L := Z.of_nat len).
  assert (HL : 0 < inject_Z L).
  { change 0 with (inject_Z 0). rewrite <- Zlt_Qlt. lia. }
  assert (Hlo : (0 <= Qfloor (d * inject_Z L))%Z).
  { change 0%Z with (Qfloor (inject_Z 0)). apply Qfloor_resp_le.
    change (inject_Z 0) with 0. nra. }
  assert (Hhi : (Qfloor (d * inject_Z L) < L)%Z).
  { rewrite Zlt_Qlt.
    eapply Qle_lt_trans; [apply Qfloor_le|]. nra. }
  lia.
Qed.

Lemma random_run (w : World) : random w = Ok (fst (rng_next (rng w))) (advance w).
Proof. reflexivity. Qed.

Lemma choice_run {A} (l : list A) (w : World) :
  l <> [] ->
  exists x, l !! next_index w (length l) = Some x /\ choice l w = Ok x (advance w).
Proof.
  intros Hne.
  assert (Hlt : (next_index w (length l) < length l)%nat).
  { destruct (rng_next_range (rng w)).
    apply choice_index_lt; [done..|]. destruct l; [done | simpl; lia]. }
  destruct (lookup_lt_is_Some_2 _ _ Hlt) as [x Hx].
  exists x. split; [done|].
  destruct l; [done|].
  unfold choice, mbind, M_bind. rewrite random_run.
  fold (next_index w (length (a :: l))). by rewrite Hx.
Qed.

Lemma choice_nil {A} (w : World) : choice (@nil A) w = Raise IndexError w.
Proof. reflexivity. Qed.

(** ** The updater *)

Lemma energy_cost_range (w : World) : (1 # 2) <= energy_cost w /\ energy_cost w < 2.
Proof.
  unfold energy_cost. destruct (rng_next_range (rng w)). split; lra.
Qed.

Lemma uniform_run (a b : Q) (w : World) :
  uniform a b w = Ok (a + (b - a) * fst (rng_next (rng w))) (advance w).
Proof. reflexivity. Qed.

Lemma uniform_b64_run (a b : Q) (w : World) :
  uniform_b64 a b w
  = Ok (fadd a (fmul (fsub b a) (fst (rng_next (rng w))))) (advance w).
Proof. reflexivity. Qed.

Lemma energy_cost_b64_range (w : World) :
  (1 # 2) <= energy_cost_b64 w <= 2.
Proof.
  unfold energy_cost_b64. destruct (rng_next_range (rng w)) as [Hlo Hhi].
  set (d := fst (rng_next (rng w))) in *.
  assert (E : fsub 2 (1 # 2) = 3 # 2) by (vm_compute; reflexivity).
  rewrite E.
  assert (H0 : b64 0 = 0) by (vm_compute; reflexivity).
  assert (H1 : b64 (3 # 2) = 3 # 2) by (vm_compute; reflexivity).
  assert (H2 : b64 (1 # 2) = 1 # 2) by (vm_compute; reflexivity).
  assert (H3 : b64 2 = 2) by (vm_compute; reflexivity).
  assert (Hm : 0 <= fmul (3 # 2) d <= 3 # 2).
  { unfold fmul. split.
    - apply b64_nonneg. nra.
    - apply Qle_trans with (b64 (3 # 2)); [apply b64_le; nra|].
      rewrite H1. lra. }
  unfold fadd. split.
  - apply Qle_trans with (b64 (1 # 2)); [rewrite H2; lra|].
    apply b64_le; lra.
  - apply Qle_trans with (b64 2); [apply b64_le; lra|].
    rewrite H3. lra.
Qed.

Lemma update_trust_energy_b64_run (w : World) (s : nat) (success : bool)
    (t e : Q) :
  trust_scores w !! s = Some t ->
  energy w !! s = Some e ->
  update_trust_energy_b64 s success w =
    Ok tt (mkWorld (G w) (roles w)
             (<[s := new_trust_b64 success t]> (trust_scores w))
             (<[s := py_max 0 (fsub e (energy_cost_b64 w))]> (energy w))
             (packets_sent w) (packets_received w) (packets_dropped w)
             (snd (rng_next (rng w)))).
Proof.
  intros Ht He.
  unfold update_trust_energy_b64, mbind, M_bind, dict_get.
  destruct success; rewrite Ht; cbn; rewrite He; reflexivity.
Qed.

Lemma update_trust_energy_run (w : World) (s : nat) (success : bool) (t e : Q) :
  trust_scores w !! s = Some t ->
  energy w !! s = Some e ->
  update_trust_energy s success w =
    Ok tt (mkWorld (G w) (roles w)
             (<[s := new_trust success t]> (trust_scores w))
             (<[s := py_max 0 (e - energy_cost w)]> (energy w))
             (packets_sent w) (packets_received w) (packets_dropped w)
             (snd (rng_next (rng w)))).
Proof.
  intros Ht He.
  unfold update_trust_energy, mbind, M_bind, dict_get.
  destruct success; rewrite Ht; cbn; rewrite He; reflexivity.
Qed.

(** ** Well-formed states *)

Lemma has_key_Some {V} (m : gmap nat V) (k : nat) :
  has_key m k = true <-> is_Some (m !! k).
Proof.
  unfold has_key. destruct (m !! k); split; intros H; eauto.
  - discriminate.
  - by destruct H.
Qed.

Lemma node_ok_elim (w : World) (u : nat) :
  node_ok w u = true ->
  (exists l, adj (G w) !! u = Some l /\
             forall v, v ∈ l -> v ∈ nodes (G w) /\ v <> u) /\
  is_Some (roles w !! u) /\ is_Some (trust_scores w !! u) /\
  is_Some (energy w !! u) /\ is_Some (packets_sent w !! u) /\
  is_Some (packets_received w !! u) /\ is_Some (packets_dropped w !! u).
Proof.
  unfold node_ok. rewrite !andb_true_iff, !has_key_Some.
  intros [[[[[[Ha ?] ?] ?] ?] ?] ?]. repeat split; try done.
  destruct (adj (G w) !! u) as [l|]; [|done].
  exists l. split; [done|]. intros v Hv.
  rewrite forallb_forall in Ha.
  specialize (Ha v (proj1 (list_elem_of_In _ _) Hv)).
  apply andb_true_iff in Ha as [Hin Hneq].
  apply bool_decide_eq_true in Hin. apply negb_true_iff, Nat.eqb_neq in Hneq.
  done.
Qed.

Lemma node_ok_intro (w : World) (u : nat) (l : list nat) :
  adj (G w) !! u = Some l ->
  (forall v, v ∈ l -> v ∈ nodes (G w) /\ v <> u) ->
  is_Some (roles w !! u) -> is_Some (trust_scores w !! u) ->
  is_Some (energy w !! u) -> is_Some (packets_sent w !! u) ->
  is_Some (packets_received w !! u) -> is_Some (packets_dropped w !! u) ->
  node_ok w u = true.
Proof.
  intros Ha Hl ? ? ? ? ? ?. unfold node_ok. rewrite Ha.
  rewrite !andb_true_iff, !has_key_Some. repeat split; try done.
  apply forallb_forall. intros v Hv.
  apply list_elem_of_In in Hv. destruct (Hl v Hv) as [Hin Hneq].
  apply andb_true_iff. split.
  - by apply bool_decide_eq_true.
  - by apply negb_true_iff, Nat.eqb_neq.
Qed.

Lemma world_ok_node (w : World) (u : nat) :
  world_ok w = true -> u ∈ nodes (G w) -> node_ok w u = true.
Proof.
  unfold world_ok. rewrite forallb_forall. intros H Hu.
  apply H. by apply list_elem_of_In.
Qed.

(** ** One step, in closed form *)

Lemma attempt_run (behavior : Role) (w : World) :
  attempt behavior w =
    Ok (policy behavior (fst (rng_next (rng w)))) (after_attempt behavior w).
Proof. by destruct behavior. Qed.

Lemma simulate_step_empty (w : World) (s : nat) :
  drawn_sender w = Some s ->
  adj (G w) !! s = Some [] ->
  simulate_step w = Ok None (advance w).
Proof.
  intros Hs Ha. unfold drawn_sender in Hs.
  assert (Hne : nodes (G w) <> []) by (intros E; by rewrite E in Hs).
  destruct (choice_run (nodes (G w)) w Hne) as (x & Hx & Hc).
  rewrite Hs in Hx. injection Hx as <-.
  unfold simulate_step, mbind, M_bind. rewrite Hc.
  unfold neighbors. cbn. by rewrite Ha.
Qed.

Lemma simulate_step_completed (w : World) (s r : nat) (nbrs : list nat)
    (behavior : Role) (ps pr pd : Z) (t e : Q) :
  drawn_sender w = Some s ->
  adj (G w) !! s = Some nbrs ->
  drawn_receiver w nbrs = Some r ->
  roles w !! s = Some behavior ->
  packets_sent w !! s = Some ps ->
  packets_received w !! r = Some pr ->
  packets_dropped w !! s = Some pd ->
  trust_scores w !! s = Some t ->
  energy w !! s = Some e ->
  let b := step_success w behavior in
  let wc := counted w s r behavior b ps pr pd in
  simulate_step w = Ok (Some (s, r, b)) (world_of (update_trust_energy s b wc))
  /\ update_trust_energy s b wc =
       Ok tt (mkWorld (G w) (roles w)
                (<[s := new_trust b t]> (trust_scores w))
                (<[s := py_max 0 (e - energy_cost wc)]> (energy w))
                (packets_sent wc) (packets_received wc) (packets_dropped wc)
                (snd (rng_next (rng wc)))).
Proof.
  intros Hs Ha Hr Hrole Hps Hpr Hpd Ht He b wc.
  assert (Hupd := update_trust_energy_run wc s b t e Ht He).
  split; [|exact Hupd].
  unfold drawn_sender in Hs. unfold drawn_receiver in Hr.
  assert (Hne : nodes (G w) <> []) by (intros E; by rewrite E in Hs).
  assert (Hne' : nbrs <> []) by (intros E; by rewrite E in Hr).
  destruct (choice_run (nodes (G w)) w Hne) as (x & Hx & Hc).
  rewrite Hs in Hx. injection Hx as <-.
  destruct (choice_run nbrs (advance w) Hne') as (y & Hy & Hc').
  rewrite Hr in Hy. injection Hy as <-.
  unfold simulate_step, mbind, M_bind. rewrite Hc.
  unfold neighbors. cbn. rewrite Ha.
  destruct nbrs as [|n0 nbrs0]; [done|].
  rewrite Hc'. unfold dict_get at 1. cbn. rewrite Hrole.
  rewrite attempt_run. fold (at_policy w). fold (step_success w behavior).
  fold b. set (wa := after_attempt behavior (at_policy w)).
  assert (Hsame : packets_sent wa = packets_sent w /\
                  packets_received wa = packets_received w /\
                  packets_dropped wa = packets_dropped w /\
                  G wa = G w /\ roles wa = roles w /\
                  trust_scores wa = trust_scores w /\ energy wa = energy w)
    by (by destruct behavior).
  destruct Hsame as (Es & Er & Ed & EG & Erl & Et & Ee).
  unfold dict_get at 1. rewrite Es, Hps.
  assert (Hmid :
    (if b then pr0 ← dict_get packets_received r; set_received r (pr0 + 1)%Z
     else pd0 ← dict_get packets_dropped s; set_dropped s (pd0 + 1)%Z)
      (with_sent (<[s := (ps + 1)%Z]> (packets_sent w)) wa) = Ok tt wc).
  { unfold wc, counted. clearbody b. clear Hupd wc.
    unfold mbind, M_bind, dict_get.
    destruct b; cbn; rewrite ?Er, ?Ed, ?Hpr, ?Hpd; cbn;
      unfold with_received, with_dropped, with_sent; cbn;
      rewrite ?EG, ?Erl, ?Et, ?Ee, ?Er, ?Ed; reflexivity. }
  unfold set_sent, modify. unfold mbind, M_bind in Hmid |- *.
  rewrite Es. rewrite Hmid, Hupd. reflexivity.
Qed.

Lemma simulate_step_reads (w : World) (d : Reads) :
  reads w d ->
  simulate_step w =
    Ok (Some (rd_sender d, rd_receiver d, rd_success w d)) (completed_world w d)
  /\ update_trust_energy (rd_sender d) (rd_success w d) (rd_counted w d) =
       Ok tt (completed_world w d).
Proof.
  intros (Hs & Ha & Hr & Hrole & Hps & Hpr & Hpd & Ht & He).
  destruct (simulate_step_completed w _ _ _ _ _ _ _ _ _
              Hs Ha Hr Hrole Hps Hpr Hpd Ht He) as [H1 H2].
  cbv zeta in H1, H2. split; [|exact H2].
  rewrite H1. unfold rd_counted, rd_success. by rewrite H2.
Qed.

(** Under [world_ok] a step raises only when there is no node, returns
    nothing when the drawn sender has no neighbour, and completes
    otherwise. *)
Lemma simulate_step_cases (w : World) :
  world_ok w = true ->
  (nodes (G w) = [] /\ simulate_step w = Raise IndexError w) \/
  (exists s, drawn_sender w = Some s /\ adj (G w) !! s = Some [] /\
             simulate_step w = Ok None (advance w)) \/
  (exists d, reads w d /\ rd_nbrs d <> [] /\
             rd_sender d ∈ nodes (G w) /\ rd_receiver d ∈ nodes (G w) /\
             rd_receiver d <> rd_sender d).
Proof.
  intros Hok.
  destruct (decide (nodes (G w) = [])) as [En|Hne].
  { left. split; [done|]. unfold simulate_step, mbind, M_bind. by rewrite En. }
  right.
  destruct (choice_run (nodes (G w)) w Hne) as (s & Hs & _).
  assert (Hin : s ∈ nodes (G w)) by (apply list_elem_of_lookup; eauto).
  destruct (node_ok_elim w s (world_ok_node w s Hok Hin))
    as ((nbrs & Ha & Hnb) & [rl Hrl] & [t Ht] & [e He] & [ps Hps] & _ & [pd Hpd]).
  destruct (decide (nbrs = [])) as [Env|Hne'].
  { left. exists s. subst nbrs. repeat split; try done.
    by apply simulate_step_empty with s. }
  right.
  destruct (choice_run nbrs (advance w) Hne') as (r & Hr & _).
  assert (Hrin : r ∈ nbrs) by (apply list_elem_of_lookup; eauto).
  destruct (Hnb r Hrin) as [Hrn Hrs].
  destruct (node_ok_elim w r (world_ok_node w r Hok Hrn))
    as (_ & _ & _ & _ & _ & [pr Hpr] & _).
  exists (mkReads s r nbrs rl ps pr pd t e).
  unfold reads; cbn. repeat split; done.
Qed.

(** ** Sums of dictionary values *)

Lemma sum_values_empty : sum_values ∅ = 0%Z.
Proof. apply map_fold_empty. Qed.

Lemma sum_values_fresh (m : gmap nat Z) (k : nat) (v : Z) :
  m !! k = None -> sum_values (<[k := v]> m) = (v + sum_values m)%Z.
Proof.
  intros Hk. unfold sum_values.
  rewrite map_fold_insert_L; [done| |done]. intros. lia.
Qed.

Lemma sum_values_update (m : gmap nat Z) (k : nat) (v v' : Z) :
  m !! k = Some v -> sum_values (<[k := v']> m) = (sum_values m - v + v')%Z.
Proof.
  intros Hk.
  rewrite <- (insert_delete_id m k v Hk) at 2.
  rewrite <- insert_delete_eq.
  rewrite !sum_values_fresh by apply lookup_delete_eq. lia.
Qed.

(** ** Invariants of a run *)

Lemma grows_refl (m : gmap nat Z) : grows m m.
Proof. intros s c H. exists c. split; [done | lia]. Qed.

Lemma shrinks_refl (m : gmap nat Q) : shrinks m m.
Proof. intros s e H. exists e. split; [done | lra]. Qed.

Lemma grows_insert (m : gmap nat Z) (k : nat) (v v' : Z) :
  m !! k = Some v -> (v <= v')%Z -> grows m (<[k := v']> m).
Proof.
  intros Hk Hle s c Hs. destruct (decide (k = s)) as [->|Hne].
  - exists v'. rewrite lookup_insert_eq. split; [done|]. congruence.
  - exists c. rewrite lookup_insert_ne by done. split; [done | lia].
Qed.

Lemma shrinks_insert (m : gmap nat Q) (k : nat) (v v' : Q) :
  m !! k = Some v -> v' <= v -> shrinks m (<[k := v']> m).
Proof.
  intros Hk Hle s c Hs. destruct (decide (k = s)) as [->|Hne].
  - exists v'. rewrite lookup_insert_eq. split; [done|]. congruence.
  - exists c. rewrite lookup_insert_ne by done. split; [done | lra].
Qed.

Lemma Mono_refl (w : World) : Mono w w.
Proof.
  split; auto using grows_refl, shrinks_refl.
Qed.

Lemma has_key_insert {V} (m : gmap nat V) (k u : nat) (v : V) :
  has_key m u = true -> has_key (<[k := v]> m) u = true.
Proof.
  rewrite !has_key_Some. intros [x Hx].
  destruct (decide (k = u)) as [->|Hne].
  - rewrite lookup_insert_eq. eauto.
  - rewrite lookup_insert_ne by done. eauto.
Qed.

(** [world_ok] survives any change that keeps the graph and the keys. *)
Lemma world_ok_keep (w w' : World) :
  G w' = G w ->
  (forall u, has_key (roles w) u = true -> has_key (roles w') u = true) ->
  (forall u, has_key (trust_scores w) u = true ->
             has_key (trust_scores w') u = true) ->
  (forall u, has_key (energy w) u = true -> has_key (energy w') u = true) ->
  (forall u, has_key (packets_sent w) u = true ->
             has_key (packets_sent w') u = true) ->
  (forall u, has_key (packets_received w) u = true ->
             has_key (packets_received w') u = true) ->
  (forall u, has_key (packets_dropped w) u = true ->
             has_key (packets_dropped w') u = true) ->
  world_ok w = true -> world_ok w' = true.
Proof.
  intros HG H1 H2 H3 H4 H5 H6. unfold world_ok. rewrite HG, !forallb_forall.
  intros H u Hu. specialize (H u Hu). unfold node_ok in *. rewrite HG.
  rewrite !andb_true_iff in *.
  destruct H as [[[[[[Ha ?] ?] ?] ?] ?] ?]. repeat split; auto.
Qed.

Lemma new_trust_range (b : bool) (t : Q) :
  0 <= t <= 1 -> 0 <= new_trust b t <= 1.
Proof.
  intros [H0 H1]. unfold new_trust. destruct b.
  - destruct (py_min_bounds 1 (t + (1 # 20))).
    destruct (py_min_cases 1 (t + (1 # 20))) as [E | E]; rewrite E in *; lra.
  - destruct (py_max_bounds 0 (t - (1 # 10))).
    destruct (py_max_cases 0 (t - (1 # 10))) as [E | E]; rewrite E in *; lra.
Qed.

Lemma new_energy_range (e u : Q) :
  0 <= e -> 0 <= u -> 0 <= py_max 0 (e - u) <= e.
Proof.
  intros H0 Hu. destruct (py_max_bounds 0 (e - u)).
  destruct (py_max_cases 0 (e - u)) as [E | E]; rewrite E in *; lra.
Qed.

Lemma completed_world_Inv (w : World) (d : Reads) :
  Inv w -> reads w d -> Inv (completed_world w d) /\ Mono w (completed_world w d).
Proof.
  intros [Hok Ht He Hs Hr Hd Hc]
         (Hds & Ha & Hdr & Hrole & Hps & Hpr & Hpd & Htr & Hen).
  assert (Hu := energy_cost_range (rd_counted w d)).
  assert (Hte := new_energy_range (rd_energy d) (energy_cost (rd_counted w d))
                   (proj1 (He _ _ Hen)) ltac:(lra)).
  split.
  - split; cbn.
    + revert Hok. apply world_ok_keep; cbn; try done;
        try (intros u; apply has_key_insert).
      * destruct (rd_success w d); [intros u; apply has_key_insert | done].
      * destruct (rd_success w d); [done | intros u; apply has_key_insert].
    + intros s t. destruct (decide (rd_sender d = s)) as [<-|Hne].
      * rewrite lookup_insert_eq. intros [= <-].
        apply new_trust_range. eauto.
      * rewrite lookup_insert_ne by done. eauto.
    + intros s e. destruct (decide (rd_sender d = s)) as [<-|Hne].
      * rewrite lookup_insert_eq. intros [= <-].
        specialize (He _ _ Hen). lra.
      * rewrite lookup_insert_ne by done. eauto.
    + intros s c. destruct (decide (rd_sender d = s)) as [<-|Hne].
      * rewrite lookup_insert_eq. intros [= <-]. specialize (Hs _ _ Hps). lia.
      * rewrite lookup_insert_ne by done. eauto.
    + destruct (rd_success w d); [|by eauto].
      intros s c. destruct (decide (rd_receiver d = s)) as [<-|Hne].
      * rewrite lookup_insert_eq. intros [= <-]. specialize (Hr _ _ Hpr). lia.
      * rewrite lookup_insert_ne by done. eauto.
    + destruct (rd_success w d); [by eauto|].
      intros s c. destruct (decide (rd_sender d = s)) as [<-|Hne].
      * rewrite lookup_insert_eq. intros [= <-]. specialize (Hd _ _ Hpd). lia.
      * rewrite lookup_insert_ne by done. eauto.
    + rewrite (sum_values_update _ _ _ _ Hps).
      destruct (rd_success w d).
      * rewrite (sum_values_update _ _ _ _ Hpr). lia.
      * rewrite (sum_values_update _ _ _ _ Hpd). lia.
  - split; cbn; try done.
    + eapply shrinks_insert; [done | lra].
    + eapply grows_insert; [done | lia].
    + destruct (rd_success w d); [|apply grows_refl].
      eapply grows_insert; [done | lia].
    + destruct (rd_success w d); [apply grows_refl|].
      eapply grows_insert; [done | lia].
Qed.

Lemma advance_Inv (w : World) : Inv w -> Inv (advance w) /\ Mono w (advance w).
Proof.
  intros [Hok Ht He Hs Hr Hd Hc]. split.
  - split; cbn; try done.
  - split; cbn; auto using grows_refl, shrinks_refl.
Qed.

Lemma simulate_step_Inv (w : World) :
  Inv w ->
  Inv (world_of (simulate_step w)) /\ Mono w (world_of (simulate_step w)).
Proof.
  intros HI.
  destruct (simulate_step_cases w (inv_ok w HI))
    as [[_ ->] | [(s & _ & _ & ->) | (d & Hd & _)]]; cbn.
  - split; [done | apply Mono_refl].
  - by apply advance_Inv.
  - destruct (simulate_step_reads w d Hd) as [-> _]. cbn.
    by apply completed_world_Inv.
Qed.

(** ** The topology *)

Lemma add_key_elem (v x : nat) (l : list nat) :
  x ∈ add_key v l <-> x ∈ l \/ x = v.
Proof.
  unfold add_key. case_decide.
  - split; [auto|]. intros [?| ->]; done.
  - rewrite elem_of_app, list_elem_of_singleton. done.
Qed.

Lemma add_node_present (u : nat) (gr : Graph) :
  u ∈ nodes gr -> add_node u gr = gr.
Proof. intros H. unfold add_node. by rewrite decide_True. Qed.

Lemma add_node_nodes (u x : nat) (gr : Graph) :
  x ∈ nodes (add_node u gr) <-> x ∈ nodes gr \/ x = u.
Proof.
  unfold add_node. case_decide; cbn.
  - split; [auto|]. intros [?| ->]; done.
  - rewrite elem_of_app, list_elem_of_singleton. done.
Qed.

Lemma add_node_wf (u : nat) (gr : Graph) : graph_wf gr -> graph_wf (add_node u gr).
Proof.
  intros [Ha Hb]. unfold add_node. case_decide as Hu; [done|].
  split; cbn.
  - intros x Hx. apply elem_of_app in Hx as [Hx|Hx].
    + destruct (decide (u = x)) as [->|]; [done|].
      rewrite lookup_insert_ne by done. auto.
    + apply list_elem_of_singleton in Hx as ->. rewrite lookup_insert_eq. eauto.
  - intros x l v. destruct (decide (u = x)) as [->|Hne].
    + rewrite lookup_insert_eq. intros [= <-] Hv. by apply elem_of_nil in Hv.
    + rewrite lookup_insert_ne by done. intros Hl Hv.
      destruct (Hb x l v Hl Hv). split; [|done].
      apply elem_of_app. auto.
Qed.

Lemma add_edge_nodes (u v : nat) (gr : Graph) :
  u ∈ nodes gr -> v ∈ nodes gr -> nodes (add_edge u v gr) = nodes gr.
Proof.
  intros Hu Hv. unfold add_edge. cbn.
  by rewrite (add_node_present u gr Hu), (add_node_present v gr Hv).
Qed.

Lemma add_edge_wf (u v : nat) (gr : Graph) :
  u <> v -> graph_wf gr -> graph_wf (add_edge u v gr).
Proof.
  intros Huv Hwf.
  assert (Hwf1 : graph_wf (add_node v (add_node u gr)))
    by (by apply add_node_wf, add_node_wf).
  assert (Hu1 : u ∈ nodes (add_node v (add_node u gr))).
  { apply add_node_nodes. left. apply add_node_nodes. by right. }
  assert (Hv1 : v ∈ nodes (add_node v (add_node u gr))).
  { apply add_node_nodes. by right. }
  unfold add_edge. set (g1 := add_node v (add_node u gr)) in *.
  destruct Hwf1 as [Ha Hb].
  split; cbn.
  - intros x Hx.
    destruct (decide (v = x)) as [->|Hvx]; [rewrite lookup_insert_eq; eauto|].
    rewrite lookup_insert_ne by done.
    destruct (decide (u = x)) as [->|Hux]; [rewrite lookup_insert_eq; eauto|].
    rewrite lookup_insert_ne by done. auto.
  - intros x l y.
    destruct (decide (v = x)) as [->|Hvx].
    + rewrite lookup_insert_eq. intros [= <-].
      rewrite lookup_insert_ne by done.
      rewrite add_key_elem. intros [Hy | ->]; [|done].
      destruct (adj g1 !! x) as [l0|] eqn:El; cbn in Hy.
      * eauto.
      * by apply elem_of_nil in Hy.
    + rewrite lookup_insert_ne by done.
      destruct (decide (u = x)) as [->|Hux].
      * rewrite lookup_insert_eq. intros [= <-].
        rewrite add_key_elem. intros [Hy | ->]; [|done].
        unfold adj_of in Hy.
        destruct (adj g1 !! x) as [l0|] eqn:El; cbn in Hy.
        -- eauto.
        -- by apply elem_of_nil in Hy.
      * rewrite lookup_insert_ne by done. eauto.
Qed.

Lemma empty_graph_S (n : nat) : empty_graph (S n) = add_node n (empty_graph n).
Proof. unfold empty_graph. by rewrite seq_S, foldl_app. Qed.

Lemma empty_graph_spec (n : nat) :
  nodes (empty_graph n) = seq 0 n /\
  forall u, adj (empty_graph n) !! u = if decide (u < n)%nat then Some [] else None.
Proof.
  induction n as [|n [IHn IHa]].
  - split; [done|]. intros u. cbn. rewrite lookup_empty.
    case_decide; [lia | done].
  - rewrite empty_graph_S. unfold add_node.
    rewrite decide_False by (rewrite IHn, elem_of_seq; lia).
    split; [cbn [nodes]; rewrite IHn; symmetry; apply seq_S|].
    cbn [adj]. intros u. destruct (decide (n = u)) as [->|Hne].
    + rewrite lookup_insert_eq. by rewrite decide_True by lia.
    + rewrite lookup_insert_ne by done. rewrite IHa.
      repeat case_decide; try done; lia.
Qed.

Lemma empty_graph_wf (n : nat) : graph_wf (empty_graph n).
Proof.
  destruct (empty_graph_spec n) as [Hn Ha]. split.
  - intros u Hu. rewrite Hn, elem_of_seq in Hu. rewrite Ha.
    rewrite decide_True by lia. eauto.
  - intros u l v. rewrite Ha. case_decide; [|done].
    intros [= <-] Hv. by apply elem_of_nil in Hv.
Qed.

Lemma combinations_elem (n u v : nat) :
  (u, v) ∈ combinations n -> (u < v)%nat /\ (v < n)%nat.
Proof.
  unfold combinations. rewrite list_elem_of_In, in_flat_map.
  intros (i & Hi & Hin). apply in_map_iff in Hin as (j & [= <- <-] & Hj).
  apply in_seq in Hi, Hj. lia.
Qed.

Lemma gnp_loop_spec (p : Q) (es : list (nat * nat)) (gr : Graph) (g : Rng) :
  edges_within gr es -> graph_wf gr ->
  nodes (fst (gnp_loop p es gr g)) = nodes gr /\ graph_wf (fst (gnp_loop p es gr g)).
Proof.
  revert gr g. induction es as [|[u v] es IH]; intros gr g Hes Hwf; [done|].
  cbn. destruct (Hes u v) as (Hu & Hv & Huv); [left|].
  set (gr' := if Qltb _ p then add_edge u v gr else gr).
  assert (Hn : nodes gr' = nodes gr).
  { unfold gr'. case_match; [by apply add_edge_nodes | done]. }
  assert (Hwf' : graph_wf gr').
  { unfold gr'. case_match; [by apply add_edge_wf | done]. }
  destruct (IH gr' {| tape := tape g; pos := S (pos g) |}) as [H1 H2]; [|done|].
  - intros a b Hab. rewrite Hn. apply Hes. by right.
  - split; [congruence | done].
Qed.

Lemma add_edges_from_spec (es : list (nat * nat)) (gr : Graph) :
  edges_within gr es -> graph_wf gr ->
  nodes (add_edges_from es gr) = nodes gr /\ graph_wf (add_edges_from es gr).
Proof.
  revert gr. induction es as [|[u v] es IH]; intros gr Hes Hwf; [done|].
  cbn. destruct (Hes u v) as (Hu & Hv & Huv); [left|].
  assert (Hn := add_edge_nodes u v gr Hu Hv).
  destruct (IH (add_edge u v gr)) as [H1 H2].
  - intros a b Hab. rewrite Hn. apply Hes. by right.
  - by apply add_edge_wf.
  - unfold add_edges_from in *. split; [congruence | done].
Qed.

Lemma combinations_within (n : nat) : edges_within (empty_graph n) (combinations n).
Proof.
  intros u v Huv. apply combinations_elem in Huv.
  destruct (empty_graph_spec n) as [-> _]. rewrite !elem_of_seq. lia.
Qed.

Lemma erdos_renyi_graph_spec (n : nat) (p : Q) (g : Rng) :
  nodes (fst (erdos_renyi_graph n p g)) = seq 0 n /\
  graph_wf (fst (erdos_renyi_graph n p g)).
Proof.
  destruct (empty_graph_spec n) as [Hn _].
  unfold erdos_renyi_graph.
  destruct (Qle_bool p 0); [|destruct (Qle_bool 1 p)]; cbn.
  - split; [done | apply empty_graph_wf].
  - destruct (add_edges_from_spec (combinations n) (empty_graph n)
                (combinations_within n) (empty_graph_wf n)) as [H1 H2].
    split; [congruence | done].
  - destruct (gnp_loop_spec p (combinations n) (empty_graph n) g
                (combinations_within n) (empty_graph_wf n)) as [H1 H2].
    split; [congruence | done].
Qed.

Lemma erdos_renyi_graph_no_edge (n : nat) (p : Q) (g : Rng) (u : nat) :
  p <= 0 -> (u < n)%nat ->
  adj (fst (erdos_renyi_graph n p g)) !! u = Some [].
Proof.
  intros Hp Hu. unfold erdos_renyi_graph.
  apply Qle_bool_iff in Hp. rewrite Hp. cbn.
  destruct (empty_graph_spec n) as [_ ->]. by rewrite decide_True.
Qed.

(** ** Initialisation *)

Lemma init_node_run (node : nat) (w : World) :
  exists r,
    init_node node w =
      Ok tt (mkWorld (G w) (<[node := r]> (roles w))
               (<[node := 1]> (trust_scores w)) (<[node := 100]> (energy w))
               (<[node := 0%Z]> (packets_sent w))
               (<[node := 0%Z]> (packets_received w))
               (<[node := 0%Z]> (packets_dropped w))
               (snd (rng_next (rng w)))).
Proof.
  destruct (choice_run [Honest; Selfish; Malicious] w ltac:(done))
    as (r & _ & Hc).
  exists r. unfold init_node, mbind, M_bind. by rewrite Hc.
Qed.

Lemma for_each_init_node (l : list nat) (w : World) :
  exists w', for_each l init_node w = Ok tt w' /\ G w' = G w /\
    forall u, (u ∈ l -> initial_at u w') /\ (u ∉ l -> same_at u w w').
Proof.
  revert w. induction l as [|x l IH]; intros w.
  - exists w. split; [done|]. split; [done|]. intros u. split; [|done].
    intros Hu. by apply elem_of_nil in Hu.
  - destruct (init_node_run x w) as [r Hr].
    set (w1 := mkWorld _ _ _ _ _ _ _ _) in Hr.
    destruct (IH w1) as (w' & Hw' & HG & Hall).
    exists w'.
    change (for_each (x :: l) init_node w)
      with (match init_node x w with
            | Ok _ w0 => for_each l init_node w0
            | Raise e w0 => Raise e w0
            end).
    rewrite Hr. split; [done|].
    split; [by rewrite HG|].
    intros u. destruct (Hall u) as [Hin Hout].
    destruct (decide (u ∈ l)) as [Hl|Hl].
    + split; [auto|]. intros Hn. contradict Hn. by right.
    + destruct (Hout Hl) as (E1 & E2 & E3 & E4 & E5 & E6). split.
      * intros Hu. apply elem_of_cons in Hu as [->|Hu]; [|done].
        unfold initial_at. rewrite E1, E2, E3, E4, E5, E6. cbn.
        rewrite !lookup_insert_eq. eauto 10.
      * intros Hu. apply not_elem_of_cons in Hu as [Hux _].
        unfold same_at. rewrite E1, E2, E3, E4, E5, E6. cbn.
        by rewrite !lookup_insert_ne.
Qed.

Lemma initialize_run (p : Q) (n : nat) (g : Rng) :
  initialize p n (blank g) = Ok tt (initial_world p n g) /\
  G (initial_world p n g) = fst (erdos_renyi_graph n p g) /\
  forall u, ((u < n)%nat -> initial_at u (initial_world p n g)) /\
            ((n <= u)%nat -> same_at u (blank g) (initial_world p n g)).
Proof.
  unfold initial_world, initialize. cbn [rng blank].
  destruct (erdos_renyi_graph_spec n p g) as [Hn _].
  destruct (erdos_renyi_graph n p g) as [gr g'] eqn:Eg. cbn [fst] in Hn.
  destruct (for_each_init_node (nodes gr)
              (with_rng g' (with_G gr (blank g)))) as (w' & Hw' & HG & Hall).
  rewrite Hw'. cbn. split; [done|]. split; [by rewrite HG|].
  intros u. destruct (Hall u) as [Hin Hout]. rewrite Hn in Hin, Hout. split.
  - intros Hu. apply Hin, elem_of_seq. lia.
  - intros Hu. apply Hout. rewrite elem_of_seq. lia.
Qed.

Lemma sum_values_zero (m : gmap nat Z) :
  (forall k v, m !! k = Some v -> v = 0%Z) -> sum_values m = 0%Z.
Proof.
  induction m as [|k v m Hk IH] using map_ind; intros Hall.
  - apply sum_values_empty.
  - rewrite sum_values_fresh by done.
    rewrite (Hall k v) by apply lookup_insert_eq.
    rewrite IH; [done|]. intros j x Hj. apply (Hall j).
    rewrite lookup_insert_ne; [done|]. intros ->. congruence.
Qed.

(** In the initial state every dictionary has exactly the keys [0..n-1]. *)
Lemma initial_world_lookup (p : Q) (n : nat) (g : Rng) (u : nat) :
  ((u < n)%nat /\ initial_at u (initial_world p n g)) \/
  ((n <= u)%nat /\ same_at u (blank g) (initial_world p n g)).
Proof.
  destruct (initialize_run p n g) as (_ & _ & Hall).
  destruct (Hall u) as [Hin Hout].
  destruct (decide (u < n)%nat); [left | right]; split; auto with lia.
Qed.

Lemma initial_world_Inv (p : Q) (n : nat) (g : Rng) : Inv (initial_world p n g).
Proof.
  destruct (initialize_run p n g) as (_ & HG & Hall).
  destruct (erdos_renyi_graph_spec n p g) as [Hn [Hwa Hwb]].
  rewrite <- HG in Hn, Hwa, Hwb.
  split.
  - unfold world_ok. apply forallb_forall. intros u Hu.
    apply list_elem_of_In in Hu.
    assert (Hlt : (u < n)%nat) by (rewrite Hn, elem_of_seq in Hu; lia).
    destruct (proj1 (Hall u) Hlt) as (Hr & Ht & He & Hs & Hrc & Hd).
    destruct (Hwa u Hu) as [l Hl].
    apply node_ok_intro with l; eauto.
  - intros s t Hs.
    destruct (initial_world_lookup p n g s)
      as [[_ (_ & E & _)] | [_ (_ & E & _)]]; rewrite E in Hs.
    + injection Hs as <-. lra.
    + cbn in Hs. by rewrite lookup_empty in Hs.
  - intros s e Hs.
    destruct (initial_world_lookup p n g s)
      as [[_ (_ & _ & E & _)] | [_ (_ & _ & E & _)]]; rewrite E in Hs.
    + injection Hs as <-. lra.
    + cbn in Hs. by rewrite lookup_empty in Hs.
  - intros s c Hs.
    destruct (initial_world_lookup p n g s)
      as [[_ (_ & _ & _ & E & _)] | [_ (_ & _ & _ & E & _)]]; rewrite E in Hs.
    + injection Hs as <-. lia.
    + cbn in Hs. by rewrite lookup_empty in Hs.
  - intros s c Hs.
    destruct (initial_world_lookup p n g s)
      as [[_ (_ & _ & _ & _ & E & _)] | [_ (_ & _ & _ & _ & E & _)]];
      rewrite E in Hs.
    + injection Hs as <-. lia.
    + cbn in Hs. by rewrite lookup_empty in Hs.
  - intros s c Hs.
    destruct (initial_world_lookup p n g s)
      as [[_ (_ & _ & _ & _ & _ & E)] | [_ (_ & _ & _ & _ & _ & E)]];
      rewrite E in Hs.
    + injection Hs as <-. lia.
    + cbn in Hs. by rewrite lookup_empty in Hs.
  - rewrite !sum_values_zero; [done|..]; intros s c Hs.
    + destruct (initial_world_lookup p n g s)
        as [[_ (_ & _ & _ & E & _)] | [_ (_ & _ & _ & E & _)]]; rewrite E in Hs.
      * congruence.
      * cbn in Hs. by rewrite lookup_empty in Hs.
    + destruct (initial_world_lookup p n g s)
        as [[_ (_ & _ & _ & _ & _ & E)] | [_ (_ & _ & _ & _ & _ & E)]];
        rewrite E in Hs.
      * congruence.
      * cbn in Hs. by rewrite lookup_empty in Hs.
    + destruct (initial_world_lookup p n g s)
        as [[_ (_ & _ & _ & _ & E & _)] | [_ (_ & _ & _ & _ & E & _)]];
        rewrite E in Hs.
      * congruence.
      * cbn in Hs. by rewrite lookup_empty in Hs.
Qed.

(** ** The run loop *)

Lemma grows_trans (a b c : gmap nat Z) : grows a b -> grows b c -> grows a c.
Proof.
  intros H1 H2 s x Hs. destruct (H1 s x Hs) as (y & Hy & Hxy).
  destruct (H2 s y Hy) as (z & Hz & Hyz). exists z. split; [done | lia].
Qed.

Lemma shrinks_trans (a b c : gmap nat Q) : shrinks a b -> shrinks b c -> shrinks a c.
Proof.
  intros H1 H2 s x Hs. destruct (H1 s x Hs) as (y & Hy & Hxy).
  destruct (H2 s y Hy) as (z & Hz & Hyz). exists z. split; [done | lra].
Qed.

Lemma Mono_trans (a b c : World) : Mono a b -> Mono b c -> Mono a c.
Proof.
  intros [? ? ? ? ? ?] [? ? ? ? ? ?].
  split; eauto using grows_trans, shrinks_trans; congruence.
Qed.

Lemma world_of_bind_ret {A B} (m : M A) (f : A -> B) (w : World) :
  world_of ((x ← m; mret (f x)) w) = world_of (m w).
Proof. unfold mbind, M_bind. by destruct (m w). Qed.

(** The loop seen from its first iteration. *)
Lemma after_S_first (k : nat) (w : World) :
  after (S k) w =
    match simulate_step w with
    | Ok _ w1 => after k w1
    | Raise _ w1 => w1
    end.
Proof.
  unfold after. cbn [run_loop]. unfold mbind at 1, M_bind at 1.
  destruct (simulate_step w) as [r w1|e w1]; [|done].
  apply world_of_bind_ret.
Qed.


Lemma after_Inv (k : nat) (w : World) :
  Inv w -> Inv (after k w) /\ Mono w (after k w).
Proof.
  revert w. induction k as [|k IH]; intros w HI.
  - split; [done | apply Mono_refl].
  - rewrite after_S_first.
    destruct (simulate_step_Inv w HI) as [HI1 HM1].
    destruct (simulate_step w) as [r w1|e w1]; cbn in HI1, HM1; [|done].
    destruct (IH w1 HI1) as [HI2 HM2]. split; [done|].
    by apply Mono_trans with w1.
Qed.


(** With at least one node, no iteration of the loop raises. *)
Lemma simulate_step_no_raise (w : World) :
  Inv w -> nodes (G w) <> [] -> exists r w', simulate_step w = Ok r w'.
Proof.
  intros HI Hne.
  destruct (simulate_step_cases w (inv_ok w HI))
    as [[E _] | [(s & _ & _ & ->) | (d & Hd & _)]]; [done|eauto|].
  destruct (simulate_step_reads w d Hd) as [-> _]. eauto.
Qed.

Lemma run_loop_no_raise (k : nat) (w : World) :
  Inv w -> nodes (G w) <> [] ->
  exists rs, run_loop k w = Ok rs (after k w) /\ length rs = k.
Proof.
  revert w. induction k as [|k IH]; intros w HI Hne.
  - by exists [].
  - destruct (simulate_step_no_raise w HI Hne) as (r & w1 & Hr).
    destruct (simulate_step_Inv w HI) as [HI1 HM1]. rewrite Hr in HI1, HM1.
    cbn in HI1, HM1.
    destruct (IH w1 HI1) as (rs & Hrs & Hlen).
    { rewrite (mono_G _ _ HM1). done. }
    exists (r :: rs). rewrite after_S_first, Hr. cbn [run_loop].
    unfold mbind, M_bind. rewrite Hr, Hrs. cbn. by rewrite Hlen.
Qed.

(** * The claims of the specification *)

(** C1.  For every node [s] (a key of the trust and energy dictionaries),
    [update_trust_energy(s, success)] returns normally; it sets
    [trust_scores[s]] to [min(1.0, trust + 0.05)] on success and to
    [max(0.0, trust - 0.1)] on failure, and sets [energy[s]] to
    [max(0.0, energy - u)] where [u] is the value [random.uniform(0.5, 2.0)]
    draws, which lies in [0.5, 2.0]; [+] and [-] are the operations on
    floats, 0.05 and 0.1 the doubles of these literals; the graph, the
    roles, the three packet counters, and the trust and energy of every
    other node are unchanged. *)
Theorem update_trust_energy_spec (w : World) (s : nat) (success : bool) (t e : Q) :
  trust_scores w !! s = Some t ->
  energy w !! s = Some e ->
  exists (u t' e' : Q) (w' : World),
    uniform_b64 (1 # 2) 2 w = Ok u (advance w) /\ (1 # 2) <= u <= 2 /\
    update_trust_energy_b64 s success w = Ok tt w' /\
    t' == (if success then Qmin 1 (fadd t double_0_05)
           else Qmax 0 (fsub t double_0_1)) /\
    e' == Qmax 0 (fsub e u) /\
    trust_scores w' = <[s := t']> (trust_scores w) /\
    energy w' = <[s := e']> (energy w) /\
    (forall k, k <> s ->
       trust_scores w' !! k = trust_scores w !! k /\
       energy w' !! k = energy w !! k) /\
    G w' = G w /\ roles w' = roles w /\
    packets_sent w' = packets_sent w /\
    packets_received w' = packets_received w /\
    packets_dropped w' = packets_dropped w.
Proof.
  intros Ht He.
  exists (energy_cost_b64 w), (new_trust_b64 success t),
         (py_max 0 (fsub e (energy_cost_b64 w))).
  eexists. split; [apply uniform_b64_run|].
  split; [apply energy_cost_b64_range|].
  split; [by apply update_trust_energy_b64_run|]. cbn.
  split.
  { unfold new_trust_b64.
    destruct success; [apply py_min_spec | apply py_max_spec]. }
  split; [apply py_max_spec|].
  repeat split; try done; by rewrite lookup_insert_ne.
Qed.


(** C3.  After any number of loop iterations from the initial state, the
    received packets plus the dropped packets, summed over all nodes,
    equal the sent packets summed over all nodes. *)
Theorem run_conservation (p : Q) (n : nat) (g : Rng) (k : nat) :
  let w := after k (initial_world p n g) in
  (sum_values (packets_received w) + sum_values (packets_dropped w)
   = sum_values (packets_sent w))%Z.
Proof.
  intros w. destruct (after_Inv k _ (initial_world_Inv p n g)) as [HI _].
  apply (inv_conserved _ HI).
Qed.

(** ** The classifier *)

Lemma detected_of_elem (ts : gmap nat Q) (n : nat) :
  n ∈ detected_of ts <-> exists t, ts !! n = Some t /\ t < 2 # 5.
Proof.
  unfold detected_of. rewrite list_elem_of_omap. split.
  - intros ([k t] & Hin & Hf). cbn in Hf.
    destruct (Qltb t (2 # 5)) eqn:E; [|done]. injection Hf as ->.
    exists t. split; [by apply elem_of_map_to_list | by apply Qltb_lt].
  - intros (t & Hl & Hlt). exists (n, t). split.
    + by apply elem_of_map_to_list.
    + cbn. apply Qltb_lt in Hlt. by rewrite Hlt.
Qed.

(** C4.  The comprehension [[n for n, t in trust_scores.items() if t < 0.4]]
    lists exactly the nodes whose trust is strictly below 0.4, each once;
    evaluating it leaves the state as it is; a node whose trust equals 0.4
    is not listed; and on [{0: 0.9, 1: 0.3, 2: 0.39, 3: 0.4}] it yields the
    set [{1, 2}]. *)
Theorem detected_spec :
  (forall (w : World) (n : nat),
     n ∈ detected_of (trust_scores w) <->
     exists t, trust_scores w !! n = Some t /\ t < 2 # 5) /\
  (forall w : World, NoDup (detected_of (trust_scores w))) /\
  (forall w : World, detected w = Ok (detected_of (trust_scores w)) w) /\
  (forall (w : World) (n : nat) (t : Q),
     trust_scores w !! n = Some t -> t == 2 # 5 ->
     n ∉ detected_of (trust_scores w)) /\
  (list_to_set (detected_of example_trust) : gset nat) = {[1%nat; 2%nat]}.
Proof.
  split; [intros w n; apply detected_of_elem|].
  split.
  { intros w. unfold detected_of.
    assert (Hnd := NoDup_fst_map_to_list (trust_scores w)).
    induction (map_to_list (trust_scores w)) as [|[k t] l IH]; cbn.
    - constructor.
    - cbn in Hnd. apply NoDup_cons in Hnd as [Hk Hl].
      destruct (Qltb t (2 # 5)); cbn; [|by apply IH].
      constructor; [|by apply IH].
      intros Hin. apply list_elem_of_omap in Hin as ([k' t'] & Hin & Hf).
      cbn in Hf. destruct (Qltb t' (2 # 5)); [|done]. injection Hf as ->.
      apply Hk. apply list_elem_of_fmap. by exists (k, t'). }
  split; [done|].
  split.
  { intros w n t Hl Heq Hin. apply detected_of_elem in Hin as (t' & Hl' & Hlt).
    rewrite Hl in Hl'. injection Hl' as <-. lra. }
  by vm_compute.
Qed.

(** ** The behaviour policy *)

Lemma count_below_zero (f : N -> bool) : count_below f 0 = 0%N.
Proof. reflexivity. Qed.

Lemma count_below_succ (f : N -> bool) (m : N) :
  count_below f (N.succ m)
  = if f m then N.succ (count_below f m) else count_below f m.
Proof. unfold count_below. by rewrite N.peano_rect_succ. Qed.

Lemma count_below_ext (f h : N -> bool) (m : N) :
  (forall k, (k < m)%N -> f k = h k) -> count_below f m = count_below h m.
Proof.
  induction m as [|m IH] using N.peano_ind; intros Hext; [done|].
  rewrite !count_below_succ, IH by (intros; apply Hext; lia).
  by rewrite Hext by lia.
Qed.

Lemma count_below_above (c m : N) :
  count_below (fun k => c <? k)%N m = (m - N.succ c)%N.
Proof.
  induction m as [|m IH] using N.peano_ind; [by rewrite count_below_zero; lia|].
  rewrite count_below_succ, IH.
  destruct (c <? m)%N eqn:E;
    [apply N.ltb_lt in E | apply N.ltb_ge in E]; lia.
Qed.

Lemma count_below_true (m : N) : count_below (fun _ => true) m = m.
Proof.
  induction m as [|m IH] using N.peano_ind; [done|].
  by rewrite count_below_succ, IH.
Qed.

(** A value [k / 2^53] exceeds the double 0.4 exactly when [k] exceeds
    its numerator, and the double 0.8 exactly when [k] exceeds twice that
    numerator. *)
Lemma random_value_above_0_4 (k : N) :
  Qltb double_0_4 (random_value k) = (3602879701896397 <? k)%N.
Proof.
  unfold random_value, double_0_4.
  destruct (3602879701896397 <? k)%N eqn:E.
  - apply N.ltb_lt in E. apply Qltb_lt. unfold Qlt. cbn [Qnum Qden]. lia.
  - apply N.ltb_ge in E. apply Qltb_ge. unfold Qle. cbn [Qnum Qden]. lia.
Qed.

Lemma random_value_above_0_8 (k : N) :
  Qltb double_0_8 (random_value k) = (7205759403792794 <? k)%N.
Proof.
  unfold random_value, double_0_8.
  destruct (7205759403792794 <? k)%N eqn:E.
  - apply N.ltb_lt in E. apply Qltb_lt. unfold Qlt. cbn [Qnum Qden]. lia.
  - apply N.ltb_ge in E. apply Qltb_ge. unfold Qle. cbn [Qnum Qden]. lia.
Qed.

Lemma successes_honest : successes Honest = 9007199254740992%N.
Proof. apply count_below_true. Qed.

Lemma successes_selfish : successes Selfish = 5404319552844594%N.
Proof.
  unfold successes. cbn [policy].
  rewrite (count_below_ext _ (fun k => 3602879701896397 <? k)%N)
    by (intros; apply random_value_above_0_4).
  by rewrite count_below_above.
Qed.

Lemma successes_malicious : successes Malicious = 1801439850948197%N.
Proof.
  unfold successes. cbn [policy].
  rewrite (count_below_ext _ (fun k => 7205759403792794 <? k)%N)
    by (intros; apply random_value_above_0_8).
  by rewrite count_below_above.
Qed.

(** C5 (as the code has it).  The policy of lines 55-60 is a function of
    the role and of the draw of [random.random()]: an Honest sender
    succeeds whatever the draw (and draws nothing), a Selfish sender
    succeeds exactly when the draw exceeds the double 0.4, which is
    [3602879701896397 / 2^53] and lies above 2/5, a Malicious sender
    exactly when it exceeds the double 0.8, which lies above 4/5.  Of the
    [2^53] equally likely values [k / 2^53] of [random.random()], all
    succeed for Honest, those with [k > 3602879701896397] for Selfish,
    which are 5404319552844594, and those with [k > 7205759403792794] for
    Malicious, which are 1801439850948197: the probability of success is
    exactly 1 for Honest, and is below 0.6 and below 0.2, by less than
    [2^-52], for Selfish and Malicious. *)
Theorem policy_success_probability (behavior : Role) (w : World) :
  attempt behavior w =
    Ok (policy behavior (fst (rng_next (rng w)))) (after_attempt behavior w) /\
  (forall d : Q, policy Honest d = true) /\
  (forall d : Q, policy Selfish d = true <-> double_0_4 < d) /\
  (forall d : Q, policy Malicious d = true <-> double_0_8 < d) /\
  2 # 5 < double_0_4 /\ 4 # 5 < double_0_8 /\
  (forall k : N, policy Selfish (random_value k) = true
                 <-> (3602879701896397 < k)%N) /\
  (forall k : N, policy Malicious (random_value k) = true
                 <-> (7205759403792794 < k)%N) /\
  successes Honest = 9007199254740992%N /\
  successes Selfish = 5404319552844594%N /\
  successes Malicious = 1801439850948197%N /\
  success_probability Honest == 1 /\
  (3 # 5) - (1 # 4503599627370496) < success_probability Selfish < 3 # 5 /\
  (1 # 5) - (1 # 4503599627370496) < success_probability Malicious < 1 # 5.
Proof.
  split; [apply attempt_run|].
  split; [done|].
  split; [intros d; apply Qltb_lt|].
  split; [intros d; apply Qltb_lt|].
  split; [reflexivity|]. split; [reflexivity|].
  split.
  { intros k. cbn [policy]. rewrite random_value_above_0_4. apply N.ltb_lt. }
  split.
  { intros k. cbn [policy]. rewrite random_value_above_0_8. apply N.ltb_lt. }
  split; [apply successes_honest|].
  split; [apply successes_selfish|].
  split; [apply successes_malicious|].
  unfold success_probability.
  rewrite successes_honest, successes_selfish, successes_malicious.
  split; [reflexivity|]. split; split; reflexivity.
Qed.

(** C5, the claim as stated fails: the draw [3602879701896397 / 2^53],
    which [random.random()] can return, exceeds 0.4 and a Selfish sender
    fails on it; and the probability of success of a Selfish sender is not
    0.6 and that of a Malicious sender is not 0.2, whether the draw is one
    of the [2^53] values of [random.random()] or a real number uniform on
    [0,1), for which it is the length of the interval above the
    threshold. *)
Lemma policy_probability_not_exact :
  random_value 3602879701896397 = double_0_4 /\
  2 # 5 < double_0_4 /\ policy Selfish double_0_4 = false /\
  ~ success_probability Selfish == 3 # 5 /\
  ~ success_probability Malicious == 1 # 5 /\
  ~ 1 - double_0_4 == 3 # 5 /\ ~ 1 - double_0_8 == 1 # 5.
Proof.
  split; [reflexivity|]. split; [reflexivity|]. split; [reflexivity|].
  unfold success_probability. rewrite successes_selfish, successes_malicious.
  repeat split; intros H; discriminate H.
Qed.

(** ** Steps *)

Lemma same_attributes_refl (w : World) : same_attributes w w.
Proof. by repeat split. Qed.

Lemma same_attributes_trans (a b c : World) :
  same_attributes a b -> same_attributes b c -> same_attributes a c.
Proof.
  intros (?&?&?&?&?&?&?) (?&?&?&?&?&?&?). repeat split; congruence.
Qed.

Lemma same_attributes_advance (w : World) : same_attributes w (advance w).
Proof. by repeat split. Qed.


(** C7.  When the drawn sender has no neighbour the step returns nothing
    and every attribute (graph, roles, trust, energy, the three counters)
    of every node is as before.  In particular, on a topology generated
    with edge probability 0 over at least one node, any number of loop
    iterations raises nothing, yields only empty results, and leaves
    every attribute as initialisation set it. *)
Theorem simulate_step_no_neighbor :
  (forall (w : World) (s : nat),
     drawn_sender w = Some s -> adj (G w) !! s = Some [] ->
     exists w', simulate_step w = Ok None w' /\ same_attributes w w') /\
  (forall (n : nat) (g : Rng) (k : nat),
     (0 < n)%nat ->
     exists w', run_loop k (initial_world 0 n g) = Ok (replicate k None) w' /\
                same_attributes (initial_world 0 n g) w').
Proof.
  split.
  - intros w s Hs Ha. exists (advance w).
    split; [by apply simulate_step_empty with s | apply same_attributes_advance].
  - intros n g k Hn.
    destruct (initialize_run 0 n g) as (_ & HG & _).
    destruct (erdos_renyi_graph_spec n 0 g) as [Hnodes _].
    set (w0 := initial_world 0 n g) in *.
    assert (Hgen : forall k w, same_attributes w0 w ->
              exists w', run_loop k w = Ok (replicate k None) w' /\
                         same_attributes w0 w').
    { clear k. intros k. induction k as [|k IH]; intros w Hsame.
      - exists w. by split.
      - assert (HGw : G w = G w0) by apply Hsame.
        assert (Hne : nodes (G w) <> []).
        { rewrite HGw, HG, Hnodes. destruct n; [lia | done]. }
        destruct (choice_run (nodes (G w)) w Hne) as (s & Hs & _).
        assert (Hlt : (s < n)%nat).
        { apply list_elem_of_lookup_2 in Hs.
          rewrite HGw, HG, Hnodes, elem_of_seq in Hs. lia. }
        assert (Ha : adj (G w) !! s = Some []).
        { rewrite HGw, HG. apply erdos_renyi_graph_no_edge; [lra | done]. }
        assert (Hstep := simulate_step_empty w s Hs Ha).
        destruct (IH (advance w)) as (w' & Hrun & Hsame').
        { eapply same_attributes_trans; [done | apply same_attributes_advance]. }
        exists w'. cbn [run_loop replicate]. unfold mbind, M_bind.
        rewrite Hstep, Hrun. by split. }
    apply Hgen, same_attributes_refl.
Qed.

(** C10.  A completed step returning [(s, r, b)] (in a well-formed state,
    where no node neighbours itself, so [s] and [r] differ) changes at most
    the sender's trust, energy, [packets_sent] and [packets_dropped] and
    the receiver's [packets_received]: the graph and all roles are
    unchanged; trust, energy, [packets_sent] and [packets_dropped] are
    unchanged at every node other than [s], the receiver included;
    [packets_received] is unchanged at every node other than [r], the
    sender included. *)
Theorem simulate_step_frame (w w' : World) (s r : nat) (b : bool) :
  world_ok w = true ->
  simulate_step w = Ok (Some (s, r, b)) w' ->
  G w' = G w /\ roles w' = roles w /\ s <> r /\
  (forall k, k <> s ->
     trust_scores w' !! k = trust_scores w !! k /\
     energy w' !! k = energy w !! k /\
     packets_sent w' !! k = packets_sent w !! k /\
     packets_dropped w' !! k = packets_dropped w !! k) /\
  (forall k, k <> r -> packets_received w' !! k = packets_received w !! k) /\
  (trust_scores w' !! r = trust_scores w !! r /\
   energy w' !! r = energy w !! r /\
   packets_sent w' !! r = packets_sent w !! r /\
   packets_dropped w' !! r = packets_dropped w !! r) /\
  packets_received w' !! s = packets_received w !! s.
Proof.
  intros Hok Hstep.
  destruct (simulate_step_cases w Hok)
    as [[_ E] | [(s0 & _ & _ & E) | (d & Hd & _ & _ & _ & Hneq)]];
    [congruence..|].
  destruct (simulate_step_reads w d Hd) as [Hrun _].
  rewrite Hrun in Hstep. injection Hstep as <- <- <- <-.
  assert (Hframe : forall k, k <> rd_sender d ->
     trust_scores (completed_world w d) !! k = trust_scores w !! k /\
     energy (completed_world w d) !! k = energy w !! k /\
     packets_sent (completed_world w d) !! k = packets_sent w !! k /\
     packets_dropped (completed_world w d) !! k = packets_dropped w !! k).
  { intros k Hk. cbn. rewrite !lookup_insert_ne by done.
    repeat split; try done.
    destruct (rd_success w d); [done | by rewrite lookup_insert_ne]. }
  assert (Hrecv : forall k, k <> rd_receiver d ->
     packets_received (completed_world w d) !! k = packets_received w !! k).
  { intros k Hk. cbn.
    destruct (rd_success w d); [by rewrite lookup_insert_ne | done]. }
  split; [done|]. split; [done|]. split; [done|].
  split; [done|]. split; [done|].
  split; [by apply Hframe | by apply Hrecv].
Qed.

(** * The claims at concrete inputs *)

(** Every state of a run is well formed, so the hypothesis [world_ok] of
    the step theorems holds wherever a run can be. *)
Lemma reachable_world_ok (p : Q) (n : nat) (g : Rng) (k : nat) :
  world_ok (after k (initial_world p n g)) = true.
Proof.
  destruct (after_Inv k _ (initial_world_Inv p n g)) as [HI _].
  apply (inv_ok _ HI).
Qed.

(** C1 on a success of node 2 in [sample_world_09]: from the double 0.9
    the stored trust is the double 0.9500000000000001. *)
Lemma update_trust_energy_spec_witness :
  trust_scores sample_world_09 !! 2%nat
  = Some (8106479329266893 # 9007199254740992) /\
  energy sample_world_09 !! 2%nat = Some 100 /\
  exists (t' : Q) (w' : World),
    update_trust_energy_b64 2 true sample_world_09 = Ok tt w' /\
    trust_scores w' !! 2%nat = Some t' /\
    t' == 8556839292003943 # 9007199254740992.
Proof.
  assert (Ht : trust_scores sample_world_09 !! 2%nat
               = Some (8106479329266893 # 9007199254740992))
    by (vm_compute; reflexivity).
  assert (He : energy sample_world_09 !! 2%nat = Some 100)
    by (vm_compute; reflexivity).
  split; [exact Ht|]. split; [exact He|].
  destruct (update_trust_energy_spec sample_world_09 2 true
              (8106479329266893 # 9007199254740992) 100 Ht He)
    as (u & t' & e' & w' & _ & _ & Hrun & Ht' & _ & Hmap & _).
  exists t', w'. split; [exact Hrun|].
  split; [rewrite Hmap; apply lookup_insert_eq|].
  rewrite Ht'.
  assert (E : fadd (8106479329266893 # 9007199254740992) double_0_05
              = 8556839292003943 # 9007199254740992)
    by (vm_compute; reflexivity).
  rewrite E. apply Q.min_r. discriminate.
Defined.


(** C4 at the boundary: node 3 of the example, with trust 0.4, is not listed. *)
Lemma detected_spec_witness :
  example_trust !! 3%nat = Some (2 # 5) /\ 2 # 5 == 2 # 5 /\
  3%nat ∉ detected_of example_trust.
Proof.
  split; [vm_compute; reflexivity|]. split; [reflexivity|].
  destruct detected_spec as (_ & _ & _ & Hedge & _).
  apply (Hedge (with_trust example_trust (blank (linear_rng 7 3))) 3%nat (2 # 5)).
  - vm_compute; reflexivity.
  - reflexivity.
Defined.


(** C7 in [sample_world], where the drawn sender is the isolated node 4,
    and on three nodes generated with edge probability 0. *)
Lemma simulate_step_no_neighbor_witness :
  drawn_sender sample_world = Some 4%nat /\
  adj (G sample_world) !! 4%nat = Some [] /\
  (exists w', simulate_step sample_world = Ok None w' /\
              same_attributes sample_world w') /\
  (0 < 3)%nat /\
  exists w', run_loop 4 (initial_world 0 3 (linear_rng 7 3))
             = Ok [None; None; None; None] w'.
Proof.
  assert (Hs : drawn_sender sample_world = Some 4%nat)
    by (vm_compute; reflexivity).
  assert (Ha : adj (G sample_world) !! 4%nat = Some [])
    by (vm_compute; reflexivity).
  assert (Hn : (0 < 3)%nat) by lia.
  destruct simulate_step_no_neighbor as [Hstep Hrun].
  split; [exact Hs|]. split; [exact Ha|].
  split; [exact (Hstep sample_world 4%nat Hs Ha)|].
  split; [exact Hn|].
  destruct (Hrun 3%nat (linear_rng 7 3) 4%nat Hn) as (w' & Hw' & _).
  exists w'. exact Hw'.
Defined.

(** C10 on the step from [sample_world_1]: node 2 sends to node 0. *)
Lemma simulate_step_frame_witness :
  world_ok sample_world_1 = true /\
  simulate_step sample_world_1
  = Ok (Some (2%nat, 0%nat, true)) (after 1 sample_world_1) /\
  roles (after 1 sample_world_1) = roles sample_world_1 /\
  trust_scores (after 1 sample_world_1) !! 0%nat
  = trust_scores sample_world_1 !! 0%nat /\
  packets_received (after 1 sample_world_1) !! 2%nat
  = packets_received sample_world_1 !! 2%nat.
Proof.
  assert (Hok : world_ok sample_world_1 = true) by (vm_compute; reflexivity).
  assert (Hstep : simulate_step sample_world_1
                  = Ok (Some (2%nat, 0%nat, true)) (after 1 sample_world_1))
    by (vm_compute; reflexivity).
  split; [exact Hok|]. split; [exact Hstep|].
  destruct (simulate_step_frame sample_world_1 (after 1 sample_world_1)
              2 0 true Hok Hstep)
    as (_ & Hroles & _ & _ & _ & (Ht & _) & Hrecv).
  split; [exact Hroles|]. split; [exact Ht | exact Hrecv].
Defined.

(** * Further properties of the engine *)

(** ** Trust and energy against the counters *)

Lemma initial_world_Audit (p : Q) (n : nat) (g : Rng) : Audit (initial_world p n g).
Proof.
  assert (Hcase := initial_world_lookup p n g).
  split.
  - intros s Hr.
    destruct (Hcase s) as [[_ (_ & Et & _ & _ & _ & Ed)] | [_ (Er & _)]].
    + done.
    + rewrite Er in Hr. cbn in Hr. by rewrite lookup_empty in Hr.
  - intros s t d Ht Hd.
    destruct (Hcase s) as [[_ (_ & Et & _ & _ & _ & Ed)] | [_ (_ & Et & _)]];
      rewrite Et in Ht.
    + rewrite Ed in Hd. injection Ht as <-. injection Hd as <-.
      change (inject_Z 0) with 0. lra.
    + cbn in Ht. by rewrite lookup_empty in Ht.
  - intros s e c He Hc.
    destruct (Hcase s) as [[_ (_ & _ & Ee & Es & _)] | [_ (_ & _ & Ee & _)]];
      rewrite Ee in He.
    + rewrite Es in Hc. injection He as <-. injection Hc as <-.
      change (inject_Z 0) with 0. split; [lra | right; lra].
    + cbn in He. by rewrite lookup_empty in He.
  - intros s d c Hd Hc.
    destruct (Hcase s) as [[_ (_ & _ & _ & Es & _ & Ed)] | [_ (_ & _ & _ & Es & _)]];
      rewrite Es in Hc.
    + rewrite Ed in Hd. injection Hd as <-. injection Hc as <-. lia.
    + cbn in Hc. by rewrite lookup_empty in Hc.
  - intros s Hout.
    destruct (initialize_run p n g) as (_ & HG & _).
    destruct (erdos_renyi_graph_spec n p g) as [Hn _]. rewrite <- HG in Hn.
    destruct (Hcase s) as [[Hlt _] | [_ (_ & E1 & E2 & E3 & E4 & E5)]].
    + contradict Hout. rewrite Hn, elem_of_seq. lia.
    + rewrite E1, E2, E3, E4, E5. cbn. by rewrite !lookup_empty.
Qed.

Lemma new_trust_lower (b : bool) (t : Q) (d : Z) :
  (0 <= d)%Z -> 1 - inject_Z d * (1 # 10) <= t ->
  1 - inject_Z (if b then d else d + 1)%Z * (1 # 10) <= new_trust b t.
Proof.
  intros Hd Ht.
  assert (Hd' : 0 <= inject_Z d).
  { change 0 with (inject_Z 0). by rewrite <- Zle_Qle. }
  unfold new_trust. destruct b.
  - destruct (py_min_cases 1 (t + (1 # 20))) as [E | E]; rewrite E; lra.
  - rewrite inject_Z_plus. change (inject_Z 1) with 1.
    destruct (py_max_bounds 0 (t - (1 # 10))). lra.
Qed.

Lemma new_energy_account (e u : Q) (c : Z) :
  (1 # 2) <= u -> u < 2 ->
  100 - 2 * inject_Z c <= e -> (e == 0 \/ e <= 100 - inject_Z c * (1 # 2)) ->
  100 - 2 * inject_Z (c + 1) <= py_max 0 (e - u) /\
  (py_max 0 (e - u) == 0 \/ py_max 0 (e - u) <= 100 - inject_Z (c + 1) * (1 # 2)).
Proof.
  intros Hu1 Hu2 Hlo Hhi. rewrite inject_Z_plus. change (inject_Z 1) with 1.
  destruct (py_max_bounds 0 (e - u)) as [B1 B2].
  split; [lra|].
  destruct (py_max_cases 0 (e - u)) as [E | E]; rewrite E in *.
  - left. reflexivity.
  - right. destruct Hhi as [Hz | Hle]; lra.
Qed.

Lemma completed_world_Audit (w : World) (d : Reads) :
  Inv w -> Audit w -> reads w d -> Audit (completed_world w d).
Proof.
  intros HI [Hh Ht He Hd Hk]
         (Hds & Ha & Hdr & Hrole & Hps & Hpr & Hpd & Htr & Hen).
  destruct d as [s0 r0 nbrs rl ps pr pd t0 e0].
  cbn [rd_sender rd_receiver rd_nbrs rd_role rd_sent rd_received rd_dropped
       rd_trust rd_energy] in *.
  set (d := mkReads s0 r0 nbrs rl ps pr pd t0 e0).
  set (b := rd_success w d).
  assert (Hdrop : forall s,
    packets_dropped (completed_world w d) !! s =
      if decide (s0 = s) then Some (if b then pd else pd + 1)%Z
      else packets_dropped w !! s).
  { intros s. cbn. fold b. destruct b; case_decide; subst;
      rewrite ?lookup_insert_eq, ?lookup_insert_ne by done; done. }
  assert (Hsent : forall s,
    packets_sent (completed_world w d) !! s =
      if decide (s0 = s) then Some (ps + 1)%Z else packets_sent w !! s).
  { intros s. cbn. case_decide; subst;
      rewrite ?lookup_insert_eq, ?lookup_insert_ne by done; done. }
  assert (Htrust : forall s,
    trust_scores (completed_world w d) !! s =
      if decide (s0 = s) then Some (new_trust b t0) else trust_scores w !! s).
  { intros s. cbn. case_decide; subst;
      rewrite ?lookup_insert_eq, ?lookup_insert_ne by done; done. }
  assert (Henergy : forall s,
    energy (completed_world w d) !! s =
      if decide (s0 = s)
      then Some (py_max 0 (e0 - energy_cost (rd_counted w d)))
      else energy w !! s).
  { intros s. cbn. case_decide; subst;
      rewrite ?lookup_insert_eq, ?lookup_insert_ne by done; done. }
  assert (Hpd0 := inv_dropped w HI _ _ Hpd).
  split.
  - intros s Hr. change (roles (completed_world w d)) with (roles w) in Hr.
    rewrite Htrust, Hdrop. destruct (Hh s Hr) as [Ht1 Hd1].
    case_decide as Es; [subst s|done].
    assert (rl = Honest) as Erl by congruence.
    assert (t0 = 1) as -> by congruence.
    assert (pd = 0%Z) as -> by congruence.
    assert (b = true) as Eb.
    { unfold b, rd_success, step_success, d. cbn [rd_role]. by rewrite Erl. }
    by rewrite Eb.
  - intros s t dd. rewrite Htrust, Hdrop. case_decide as Es.
    + intros [= <-] [= <-]. apply new_trust_lower; [done|]. by eapply Ht.
    + apply Ht.
  - intros s e c. rewrite Henergy, Hsent. case_decide as Es.
    + intros [= <-] [= <-].
      destruct (energy_cost_range (rd_counted w d)).
      destruct (He s0 e0 ps Hen Hps).
      by apply new_energy_account.
    + apply He.
  - intros s dd c. rewrite Hdrop, Hsent. case_decide as Es.
    + intros [= <-] [= <-]. specialize (Hd s0 pd ps Hpd Hps).
      destruct b; lia.
    + apply Hd.
  - intros s. change (G (completed_world w d)) with (G w). intros Hout.
    assert (Hs0 : s0 ∈ nodes (G w)) by (by apply list_elem_of_lookup_2 in Hds).
    assert (Hr0 : r0 ∈ nodes (G w)).
    { destruct (node_ok_elim w s0 (world_ok_node w s0 (inv_ok w HI) Hs0))
        as ((l & Hl & Hnb) & _).
      assert (l = nbrs) as -> by congruence.
      apply (Hnb r0). by apply list_elem_of_lookup_2 in Hdr. }
    destruct (Hk s Hout) as (K1 & K2 & K3 & K4 & K5).
    rewrite Htrust, Henergy, Hsent, Hdrop.
    rewrite !decide_False by (intros ->; done).
    repeat split; try done.
    cbn. fold b. destruct b; [|done].
    rewrite lookup_insert_ne; [done|]. intros ->. done.
Qed.

Lemma simulate_step_Audit (w : World) :
  Inv w -> Audit w -> Audit (world_of (simulate_step w)).
Proof.
  intros HI HA.
  destruct (simulate_step_cases w (inv_ok w HI))
    as [[_ ->] | [(s & _ & _ & ->) | (d & Hd & _)]]; cbn.
  - done.
  - by destruct HA.
  - destruct (simulate_step_reads w d Hd) as [-> _]. cbn.
    by apply completed_world_Audit.
Qed.

Lemma after_Audit (k : nat) (w : World) : Inv w -> Audit w -> Audit (after k w).
Proof.
  revert w. induction k as [|k IH]; intros w HI HA; [done|].
  rewrite after_S_first.
  assert (HI1 := proj1 (simulate_step_Inv w HI)).
  assert (HA1 := simulate_step_Audit w HI HA).
  destruct (simulate_step w) as [r w1|e w1]; cbn in HI1, HA1; [|done].
  by apply IH.
Qed.

Lemma run_state_facts (p : Q) (n : nat) (g : Rng) (k : nat) :
  let w0 := initial_world p n g in
  Inv (after k w0) /\ Mono w0 (after k w0) /\ Audit (after k w0).
Proof.
  intros w0. destruct (after_Inv k w0 (initial_world_Inv p n g)) as [HI HM].
  split; [done|]. split; [done|].
  apply after_Audit; [apply initial_world_Inv | apply initial_world_Audit].
Qed.

(** ** The counters against the log of step results *)

Lemma tally_cons (f : Outcome -> bool) (r : option Outcome)
    (rs : list (option Outcome)) :
  tally f (r :: rs) = (tally f [r] + tally f rs)%Z.
Proof.
  unfold tally. cbn [foldr]. destruct r as [o|]; [destruct (f o)|]; lia.
Qed.

Lemma tally_bounds (f : Outcome -> bool) (rs : list (option Outcome)) :
  (0 <= tally f rs <= tally is_completed rs)%Z /\
  (tally is_completed rs <= Z.of_nat (length rs))%Z.
Proof.
  induction rs as [|r rs IH]; [cbn; lia|].
  rewrite (tally_cons f), (tally_cons is_completed). cbn [length].
  assert (H1 : tally f [r] = match r with
                             | Some o => if f o then 1%Z else 0%Z
                             | None => 0%Z
                             end).
  { destruct r as [o|]; [unfold tally; cbn; destruct (f o)|]; reflexivity. }
  assert (H2 : tally is_completed [r] = match r with
                                        | Some o => 1%Z
                                        | None => 0%Z
                                        end).
  { destruct r; reflexivity. }
  rewrite H1, H2.
  destruct r as [o|]; [destruct (f o)|]; lia.
Qed.

Lemma logged_nil (w w' : World) :
  same_attributes w w' -> logged w w' [].
Proof.
  intros (_ & _ & _ & _ & Es & Er & Ed). unfold logged. cbn.
  rewrite Es, Er, Ed.
  split; [|split; [|split]]; [intros s c ->; f_equal; lia..|lia].
Qed.

Lemma logged_completed (w : World) (d : Reads) :
  reads w d ->
  logged w (completed_world w d)
    [Some (rd_sender d, rd_receiver d, rd_success w d)].
Proof.
  intros (Hds & Ha & Hdr & Hrole & Hps & Hpr & Hpd & Htr & Hen).
  unfold logged, is_send, is_receipt, is_drop. cbn.
  repeat split.
  - intros s c Hc. destruct (Nat.eqb_spec (rd_sender d) s) as [<-|Hne].
    + rewrite lookup_insert_eq. f_equal. assert (c = rd_sent d) by congruence.
      lia.
    + rewrite lookup_insert_ne by done. rewrite Hc. f_equal. lia.
  - intros s c Hc. destruct (rd_success w d); cbn.
    + destruct (Nat.eqb_spec (rd_receiver d) s) as [<-|Hne]; cbn.
      * rewrite lookup_insert_eq. f_equal.
        assert (c = rd_received d) by congruence. lia.
      * rewrite lookup_insert_ne by done. rewrite Hc. f_equal. lia.
    + rewrite andb_false_r. rewrite Hc. f_equal. lia.
  - intros s c Hc. destruct (rd_success w d); cbn.
    + rewrite andb_false_r. rewrite Hc. f_equal. lia.
    + destruct (Nat.eqb_spec (rd_sender d) s) as [<-|Hne]; cbn.
      * rewrite lookup_insert_eq. f_equal.
        assert (c = rd_dropped d) by congruence. lia.
      * rewrite lookup_insert_ne by done. rewrite Hc. f_equal. lia.
  - rewrite (sum_values_update _ _ _ _ Hps). lia.
Qed.

Lemma logged_trans (a b c : World) (r : option Outcome)
    (rs : list (option Outcome)) :
  logged a b [r] -> logged b c rs -> logged a c (r :: rs).
Proof.
  intros (S1 & R1 & D1 & T1) (S2 & R2 & D2 & T2).
  unfold logged. repeat split.
  - intros s x Hx. rewrite (S2 s _ (S1 s x Hx)), (tally_cons _ r rs).
    f_equal. lia.
  - intros s x Hx. rewrite (R2 s _ (R1 s x Hx)), (tally_cons _ r rs).
    f_equal. lia.
  - intros s x Hx. rewrite (D2 s _ (D1 s x Hx)), (tally_cons _ r rs).
    f_equal. lia.
  - rewrite T2, T1, (tally_cons _ r rs). lia.
Qed.

Lemma simulate_step_logged (w : World) (r : option Outcome) (w1 : World) :
  Inv w -> simulate_step w = Ok r w1 -> logged w w1 [r].
Proof.
  intros HI Hstep.
  destruct (simulate_step_cases w (inv_ok w HI))
    as [[_ E] | [(s & _ & _ & E) | (d & Hd & _)]].
  - congruence.
  - rewrite E in Hstep. injection Hstep as <- <-.
    apply logged_nil, same_attributes_advance.
  - destruct (simulate_step_reads w d Hd) as [E _].
    rewrite E in Hstep. injection Hstep as <- <-.
    by apply logged_completed.
Qed.

Lemma run_loop_logged (k : nat) (w : World) :
  Inv w -> nodes (G w) <> [] ->
  exists rs, run_loop k w = Ok rs (after k w) /\ length rs = k /\
             logged w (after k w) rs.
Proof.
  revert w. induction k as [|k IH]; intros w HI Hne.
  - exists []. split; [done|]. split; [done|].
    apply logged_nil, same_attributes_refl.
  - destruct (simulate_step_no_raise w HI Hne) as (r & w1 & Hr).
    destruct (simulate_step_Inv w HI) as [HI1 HM1]. rewrite Hr in HI1, HM1.
    cbn in HI1, HM1.
    destruct (IH w1 HI1) as (rs & Hrs & Hlen & Hlog).
    { by rewrite (mono_G _ _ HM1). }
    exists (r :: rs). rewrite after_S_first, Hr. cbn [run_loop].
    unfold mbind, M_bind. rewrite Hr, Hrs. cbn.
    split; [done|]. split; [by rewrite Hlen|].
    eapply logged_trans; [by apply simulate_step_logged | done].
Qed.

Lemma initial_world_nodes (p : Q) (n : nat) (g : Rng) :
  nodes (G (initial_world p n g)) = seq 0 n.
Proof.
  destruct (initialize_run p n g) as (_ & -> & _).
  apply erdos_renyi_graph_spec.
Qed.

Lemma initial_world_nonempty (p : Q) (n : nat) (g : Rng) :
  (0 < n)%nat -> nodes (G (initial_world p n g)) <> [].
Proof. intros Hn. rewrite initial_world_nodes. destruct n; [lia | done]. Qed.

(** X1.  For every node count of at least 1 the whole script run
    (initialisation, then fifty iterations of the loop) raises neither
    [KeyError] nor [IndexError]: it returns exactly fifty step results. *)
Theorem run_completes (n : nat) (g : Rng) :
  (0 < n)%nat ->
  exists rs, run n (blank g) = Ok rs (after 50 (initial_world (2 # 5) n g)) /\
             length rs = 50%nat.
Proof.
  intros Hn.
  destruct (initialize_run (2 # 5) n g) as (Hinit & _).
  destruct (run_loop_no_raise 50 (initial_world (2 # 5) n g)
              (initial_world_Inv _ _ _) (initial_world_nonempty _ _ _ Hn))
    as (rs & Hrs & Hlen).
  exists rs. split; [|done].
  unfold run, module_init, mbind, M_bind. by rewrite Hinit.
Qed.

(** X2.  Without nodes the first draw of a sender fails: in a state whose
    graph has no node, every non-empty loop raises [IndexError] at once and
    leaves the state (generator included) untouched; so the script run
    with node count 0 raises [IndexError] right after initialisation. *)
Theorem run_without_nodes_raises :
  (forall (w : World) (k : nat),
     nodes (G w) = [] -> run_loop (S k) w = Raise IndexError w) /\
  (forall g : Rng, run 0 (blank g) = Raise IndexError (blank g)).
Proof.
  assert (H : forall (w : World) (k : nat),
            nodes (G w) = [] -> run_loop (S k) w = Raise IndexError w).
  { intros w k Hn. cbn [run_loop]. unfold mbind at 1, M_bind at 1.
    unfold simulate_step, mbind, M_bind. by rewrite Hn. }
  split; [exact H|].
  intros g. unfold run, module_init, mbind, M_bind.
  destruct (initialize_run (2 # 5) 0 g) as (-> & _).
  replace (initial_world (2 # 5) 0 g) with (blank g) by reflexivity.
  by apply H.
Qed.

(** X3.  Roles and topology are fixed for the whole run: after any number
    of loop iterations the graph and the role of every node are those
    initialisation set. *)
Theorem run_roles_and_graph_fixed (p : Q) (n : nat) (g : Rng) (k : nat) :
  roles (after k (initial_world p n g)) = roles (initial_world p n g) /\
  G (after k (initial_world p n g)) = G (initial_world p n g) /\
  nodes (G (after k (initial_world p n g))) = seq 0 n.
Proof.
  destruct (run_state_facts p n g k) as (_ & HM & _).
  split; [apply (mono_roles _ _ HM)|].
  split; [apply (mono_G _ _ HM)|].
  rewrite (mono_G _ _ HM). apply initial_world_nodes.
Qed.

(** X4.  An Honest node is never penalised: at every point of a run its
    trust is exactly 1.0, it has dropped no packet, and it is not in the
    suspicious list. *)
Theorem honest_never_suspected (p : Q) (n : nat) (g : Rng) (k : nat) (s : nat) :
  roles (initial_world p n g) !! s = Some Honest ->
  let w := after k (initial_world p n g) in
  trust_scores w !! s = Some 1 /\
  packets_dropped w !! s = Some 0%Z /\
  s ∉ detected_of (trust_scores w).
Proof.
  intros Hr w.
  destruct (run_state_facts p n g k) as (_ & HM & HA). fold w in HM, HA.
  rewrite <- (mono_roles _ _ HM) in Hr.
  destruct (audit_honest w HA s Hr) as [Ht Hd].
  split; [done|]. split; [done|].
  intros Hin. apply detected_of_elem in Hin as (t & Ht' & Hlt).
  rewrite Ht in Ht'. injection Ht' as <-. lra.
Qed.


Lemma run_loop_empty_graph (k : nat) (w : World) :
  nodes (G w) = [] -> after k w = w.
Proof.
  intros Hn. destruct k as [|k]; [done|].
  unfold after. cbn [run_loop]. unfold mbind at 1, M_bind at 1.
  unfold simulate_step, mbind, M_bind. by rewrite Hn.
Qed.


(** X7.  The counters are the log: for a node count of at least 1, after
    [k] loop iterations [packets_sent[s]] is the number of completed steps
    of the log with sender [s], [packets_received[s]] the number of
    successful ones with receiver [s], [packets_dropped[s]] the number of
    failed ones with sender [s]; and the total of [packets_sent] is the
    number of completed steps, at most [k]. *)
Theorem counters_match_log (p : Q) (n : nat) (g : Rng) (k : nat) :
  (0 < n)%nat ->
  let w := after k (initial_world p n g) in
  exists rs,
    run_loop k (initial_world p n g) = Ok rs w /\ length rs = k /\
    (forall s, (s < n)%nat ->
       packets_sent w !! s = Some (tally (is_send s) rs) /\
       packets_received w !! s = Some (tally (is_receipt s) rs) /\
       packets_dropped w !! s = Some (tally (is_drop s) rs)) /\
    sum_values (packets_sent w) = tally is_completed rs /\
    (tally is_completed rs <= Z.of_nat k)%Z.
Proof.
  intros Hn w.
  destruct (run_loop_logged k (initial_world p n g)
              (initial_world_Inv _ _ _) (initial_world_nonempty _ _ _ Hn))
    as (rs & Hrun & Hlen & (Hs & Hr & Hd & Ht)).
  exists rs. split; [done|]. split; [done|].
  split; [|split].
  - intros s Hlt.
    destruct (initial_world_lookup p n g s)
      as [[_ (_ & _ & _ & E1 & E2 & E3)] | [? _]]; [|lia].
    unfold w. rewrite (Hs s _ E1), (Hr s _ E2), (Hd s _ E3). done.
  - fold w in Ht. rewrite Ht.
    rewrite sum_values_zero; [lia|]. intros s c Hc.
    destruct (initial_world_lookup p n g s)
      as [[_ (_ & _ & _ & E & _)] | [_ (_ & _ & _ & E & _)]]; rewrite E in Hc.
    + congruence.
    + cbn in Hc. by rewrite lookup_empty in Hc.
  - destruct (tally_bounds is_completed rs). lia.
Qed.



(** ** The further properties at concrete inputs *)

(** X1 for five nodes. *)
Lemma run_completes_witness :
  (0 < 5)%nat /\
  exists rs, run 5 (blank (linear_rng 7 3)) = Ok rs (after 50 sample_world) /\
             length rs = 50%nat.
Proof.
  assert (Hn : (0 < 5)%nat) by lia.
  split; [exact Hn|]. exact (run_completes 5 (linear_rng 7 3) Hn).
Defined.

(** X2 in the state before initialisation, whose graph has no node. *)
Lemma run_without_nodes_raises_witness :
  nodes (G (blank (linear_rng 7 3))) = [] /\
  run_loop 3 (blank (linear_rng 7 3)) = Raise IndexError (blank (linear_rng 7 3)).
Proof.
  assert (Hn : nodes (G (blank (linear_rng 7 3))) = []) by reflexivity.
  split; [exact Hn|].
  exact (proj1 run_without_nodes_raises (blank (linear_rng 7 3)) 2%nat Hn).
Defined.

(** X4 for node 0 of [sample_world], which is Honest, after fifty
    iterations. *)
Lemma honest_never_suspected_witness :
  roles sample_world !! 0%nat = Some Honest /\
  trust_scores (after 50 sample_world) !! 0%nat = Some 1 /\
  0%nat ∉ detected_of (trust_scores (after 50 sample_world)).
Proof.
  assert (Hr : roles (initial_world (2 # 5) 5 (linear_rng 7 3)) !! 0%nat
               = Some Honest)
    by (vm_compute; reflexivity).
  split; [exact Hr|].
  destruct (honest_never_suspected (2 # 5) 5 (linear_rng 7 3) 50 0 Hr)
    as (Ht & _ & Hd).
  split; [exact Ht | exact Hd].
Defined.



(** X7 for five nodes and three iterations. *)
Lemma counters_match_log_witness :
  (0 < 5)%nat /\
  exists rs, run_loop 3 sample_world = Ok rs (after 3 sample_world) /\
             sum_values (packets_sent (after 3 sample_world))
             = tally is_completed rs.
Proof.
  assert (Hn : (0 < 5)%nat) by lia.
  split; [exact Hn|].
  destruct (counters_match_log (2 # 5) 5 (linear_rng 7 3) 3 Hn)
    as (rs & Hrun & _ & _ & Hsum & _).
  exists rs. split; [exact Hrun | exact Hsum].
Defined.



(** ** Colours and the display *)

Lemma get_node_color_run (w : World) (n : nat) (t : Q) :
  trust_scores w !! n = Some t -> get_node_color n w = Ok (trust_color t) w.
Proof.
  intros Ht. unfold get_node_color, mbind, M_bind, dict_get. by rewrite Ht.
Qed.

Lemma comprehension_run {A B} (f : A -> M B) (h : A -> B) (l : list A)
    (w : World) :
  (forall x, x ∈ l -> f x w = Ok (h x) w) ->
  comprehension f l w = Ok (map h l) w.
Proof.
  induction l as [|x l IH]; intros Hf; [done|].
  cbn [comprehension map]. unfold mbind, M_bind.
  rewrite (Hf x) by left. rewrite IH; [done|].
  intros y Hy. apply Hf. by right.
Qed.

(** In a well-formed state every node has every attribute. *)
Lemma world_ok_attributes (w : World) (n : nat) :
  world_ok w = true -> n ∈ nodes (G w) ->
  roles w !! n = Some (role_at w n) /\
  trust_scores w !! n = Some (trust_at w n) /\
  energy w !! n = Some (energy_at w n) /\
  packets_sent w !! n = Some (sent_at w n) /\
  packets_received w !! n = Some (received_at w n) /\
  packets_dropped w !! n = Some (dropped_at w n).
Proof.
  intros Hok Hn.
  destruct (node_ok_elim w n (world_ok_node w n Hok Hn))
    as (_ & [r Hr] & [t Ht] & [e He] & [ps Hps] & [pr Hpr] & [pd Hpd]).
  unfold role_at, trust_at, energy_at, sent_at, received_at, dropped_at.
  by rewrite Hr, Ht, He, Hps, Hpr, Hpd.
Qed.

Lemma banner_run (w : World) : banner w = Ok (banner_of w) w.
Proof.
  unfold banner, banner_of, mbind, M_bind, detected. cbn.
  by destruct (detected_of (trust_scores w)).
Qed.

Lemma render_run (w : World) (step : nat) (o : Outcome) :
  world_ok w = true -> render step o w = Ok (frame_of w step o) w.
Proof.
  intros Hok.
  assert (Hc : node_colors w
               = Ok (map (fun n => trust_color (trust_at w n)) (nodes (G w))) w).
  { unfold node_colors, mbind, M_bind, graph_nodes.
    apply comprehension_run. intros n Hn.
    apply get_node_color_run. by apply world_ok_attributes. }
  assert (Hs : node_sizes w
               = Ok (map (fun n => energy_at w n * 6) (nodes (G w))) w).
  { unfold node_sizes, mbind, M_bind, graph_nodes.
    apply comprehension_run. intros n Hn.
    destruct (world_ok_attributes w n Hok Hn) as (_ & _ & He & _).
    unfold dict_get. by rewrite He. }
  assert (Ht : table_data w
               = Ok (map (fun n => (n, role_at w n, Rounded 2 (trust_at w n),
                                    Fixed 1 (energy_at w n))) (nodes (G w))) w).
  { unfold table_data, mbind, M_bind, graph_nodes.
    apply comprehension_run. intros n Hn.
    destruct (world_ok_attributes w n Hok Hn) as (Hr & Htr & He & _).
    unfold table_row, mbind, M_bind, dict_get. by rewrite Hr, Htr, He. }
  unfold render, mbind, M_bind. rewrite Hc, Hs, Ht. unfold total_of.
  by rewrite banner_run.
Qed.

Lemma trust_color_bands (t : Q) :
  trust_color t ∈ ["#00b300"; "#ffaa00"; "#ff6600"; "#ff0000"]%string /\
  (t < 2 # 5 ->
   trust_color t = "#ff6600"%string \/ trust_color t = "#ff0000"%string) /\
  (trust_color t = "#00b300"%string <-> 3 # 4 < t).
Proof.
  unfold trust_color.
  destruct (Qltb (3 # 4) t) eqn:E1;
    [apply Qltb_lt in E1 | apply Qltb_ge in E1];
  (destruct (Qltb (1 # 2) t) eqn:E2;
    [apply Qltb_lt in E2 | apply Qltb_ge in E2]);
  (destruct (Qltb (1 # 4) t) eqn:E3;
    [apply Qltb_lt in E3 | apply Qltb_ge in E3]);
  (split; [set_solver|]); (split; [intros Hlt; first [lra | auto]|]);
  (split; [first [done | intros _; done | intros _; lra] | first [done | intros ?; lra]]).
Qed.

Lemma frame_of_ok (w : World) (step : nat) (o : Outcome) :
  Inv w -> frame_ok (length (nodes (G w))) (frame_of w step o).
Proof.
  intros HI. unfold frame_ok, frame_of. cbn.
  rewrite !length_map.
  split; [done|]. split; [done|]. split; [done|].
  split.
  { apply Forall_forall. intros x Hx.
    apply list_elem_of_fmap in Hx as (n & -> & Hn).
    destruct (world_ok_attributes w n (inv_ok w HI) Hn) as (_ & _ & He & _).
    destruct (inv_energy w HI n _ He). lra. }
  split.
  { apply Forall_forall. intros c Hc.
    apply list_elem_of_fmap in Hc as (n & -> & Hn). apply trust_color_bands. }
  split; [apply (inv_conserved w HI)|].
  unfold edge_color. destruct (snd o); split; intros H; done.
Qed.

Lemma shown_length (steps : list nat) (rs : list (option Outcome)) :
  length steps = length rs ->
  Z.of_nat (length (shown steps rs)) = tally is_completed rs.
Proof.
  revert rs. induction steps as [|step steps IH]; intros [|r rs] Hlen;
    try done.
  injection Hlen as Hlen. rewrite (tally_cons is_completed r rs).
  destruct r as [o|]; cbn [shown length].
  - rewrite Nat2Z.inj_succ, (IH rs Hlen). cbn. lia.
  - rewrite (IH rs Hlen). cbn. lia.
Qed.

Lemma simulation_loop_run (steps : list nat) (w : World) :
  Inv w -> nodes (G w) <> [] ->
  exists rs fs,
    run_loop (length steps) w = Ok rs (after (length steps) w) /\
    length rs = length steps /\
    simulation_loop steps w = Ok fs (after (length steps) w) /\
    map (fun f => (fr_step f, fr_outcome f)) fs = shown steps rs /\
    map fr_sent fs =
      map (fun j => (sum_values (packets_sent w) + Z.of_nat j)%Z)
          (seq 1 (length fs)) /\
    Forall (frame_ok (length (nodes (G w)))) fs.
Proof.
  revert w. induction steps as [|step steps IH]; intros w HI Hne.
  - exists [], []. by repeat split.
  - destruct (simulate_step_no_raise w HI Hne) as (r & w1 & Hr).
    destruct (simulate_step_Inv w HI) as [HI1 HM1]. rewrite Hr in HI1, HM1.
    cbn in HI1, HM1.
    assert (HG : G w1 = G w) by apply (mono_G _ _ HM1).
    destruct (simulate_step_logged w r w1 HI Hr) as (_ & _ & _ & Hsum).
    destruct (IH w1 HI1) as (rs & fs & Hrun & Hlen & Hsim & Hkey & Hsent & Hok).
    { by rewrite HG. }
    rewrite HG in Hok.
    cbn [length]. rewrite after_S_first, Hr.
    assert (Hrun' : run_loop (S (length steps)) w
                    = Ok (r :: rs) (after (length steps) w1)).
    { cbn [run_loop]. unfold mbind, M_bind. by rewrite Hr, Hrun. }
    destruct r as [o|].
    + exists (Some o :: rs), (frame_of w1 step o :: fs).
      split; [done|]. split; [cbn; by rewrite Hlen|].
      split.
      { cbn [simulation_loop]. unfold mbind, M_bind. rewrite Hr.
        rewrite (render_run w1 step o (inv_ok w1 HI1)). by rewrite Hsim. }
      split; [cbn; by rewrite Hkey|].
      split.
      { cbn [map length seq]. f_equal.
        - cbn. rewrite Hsum. cbn. lia.
        - rewrite Hsent, <- (seq_shift (length fs) 1), map_map.
          apply map_ext. intros j. rewrite Hsum. cbn. lia. }
      constructor; [|done]. rewrite <- HG. by apply frame_of_ok.
    + exists (None :: rs), fs.
      split; [done|]. split; [cbn; by rewrite Hlen|].
      split.
      { cbn [simulation_loop]. unfold mbind, M_bind. by rewrite Hr. }
      split; [done|].
      split; [|done].
      rewrite Hsent. apply map_ext. intros j. rewrite Hsum. cbn. lia.
Qed.

(** X10.  The display follows the log: for a node count of at least 1,
    the displayed run ends in the same state as the bare loop of fifty
    steps; it shows one frame per completed step, in order, titled with
    the step's number (skipped steps show nothing); the [j]-th frame
    reports exactly [j] packets sent; and the number of frames is the
    final total of [packets_sent], at most 50. *)
Theorem simulation_shows_completed_steps (p : Q) (n : nat) (g : Rng) :
  (0 < n)%nat ->
  let w0 := initial_world p n g in
  exists rs fs,
    run_loop 50 w0 = Ok rs (after 50 w0) /\
    simulation w0 = Ok fs (after 50 w0) /\
    map (fun f => (fr_step f, fr_outcome f)) fs = shown (seq 0 50) rs /\
    map fr_sent fs = map Z.of_nat (seq 1 (length fs)) /\
    Z.of_nat (length fs) = sum_values (packets_sent (after 50 w0)) /\
    (length fs <= 50)%nat.
Proof.
  intros Hn w0.
  assert (HI0 := initial_world_Inv p n g).
  assert (Hne := initial_world_nonempty p n g Hn).
  destruct (simulation_loop_run (seq 0 50) w0 HI0 Hne)
    as (rs & fs & Hrun & Hlen & Hsim & Hkey & Hsent & _).
  destruct (run_loop_logged 50 w0 HI0 Hne) as (rs' & Hrun' & _ & (_ & _ & _ & Ht)).
  rewrite length_seq in Hrun, Hsim, Hlen.
  assert (rs' = rs) as -> by congruence.
  assert (Hzero : sum_values (packets_sent w0) = 0%Z).
  { apply sum_values_zero. intros s c Hc.
    destruct (initial_world_lookup p n g s)
      as [[_ (_ & _ & _ & E & _)] | [_ (_ & _ & _ & E & _)]];
      fold w0 in E; rewrite E in Hc.
    - congruence.
    - cbn in Hc. by rewrite lookup_empty in Hc. }
  assert (Hcount : Z.of_nat (length fs) = tally is_completed rs).
  { rewrite <- (shown_length (seq 0 50) rs) by (by rewrite length_seq).
    by rewrite <- Hkey, length_map. }
  exists rs, fs. split; [done|]. split; [done|]. split; [done|].
  split.
  { rewrite Hsent. apply map_ext. intros j. rewrite Hzero. lia. }
  split; [rewrite Ht, Hzero; lia|].
  destruct (tally_bounds is_completed rs) as [_ Hb]. rewrite Hlen in Hb. lia.
Qed.


(** X12.  Colour bands against the classifier: a node in the suspicious
    list is drawn orange-red or red, never green or amber; a node whose
    colour is green has trust above 0.75; and asking the colour of a node
    without trust entry raises [KeyError] and leaves the state as it is. *)
Theorem suspects_are_orange_or_red :
  (forall (w : World) (n : nat),
     n ∈ detected_of (trust_scores w) ->
     exists c, get_node_color n w = Ok c w /\
               (c = "#ff6600"%string \/ c = "#ff0000"%string)) /\
  (forall (w w' : World) (n : nat),
     get_node_color n w = Ok "#00b300"%string w' ->
     w' = w /\ exists t, trust_scores w !! n = Some t /\ 3 # 4 < t) /\
  (forall (w : World) (n : nat),
     trust_scores w !! n = None ->
     get_node_color n w = Raise (KeyError n) w).
Proof.
  split; [|split].
  - intros w n Hin. apply detected_of_elem in Hin as (t & Ht & Hlt).
    exists (trust_color t). split; [by apply get_node_color_run|].
    by apply trust_color_bands.
  - intros w w' n Hc.
    destruct (trust_scores w !! n) as [t|] eqn:Ht.
    + rewrite (get_node_color_run w n t Ht) in Hc. injection Hc as Hcol <-.
      split; [done|]. exists t. split; [done|].
      by apply trust_color_bands.
    + unfold get_node_color, mbind, M_bind, dict_get in Hc.
      by rewrite Ht in Hc.
  - intros w n Ht. unfold get_node_color, mbind, M_bind, dict_get.
    by rewrite Ht.
Qed.

(** X13.  Right after initialisation every node is drawn green, and an
    Honest node is drawn green at every point of a run. *)
Theorem honest_nodes_stay_green (p : Q) (n : nat) (g : Rng) (k : nat) (s : nat) :
  (s < n)%nat ->
  let w0 := initial_world p n g in
  get_node_color s w0 = Ok "#00b300"%string w0 /\
  (roles w0 !! s = Some Honest ->
   get_node_color s (after k w0) = Ok "#00b300"%string (after k w0)).
Proof.
  intros Hs w0. unfold w0. split.
  - destruct (initial_world_lookup p n g s) as [[_ (_ & Ht & _)] | [? _]]; [|lia].
    by rewrite (get_node_color_run _ _ _ Ht).
  - intros Hr.
    destruct (run_state_facts p n g k) as (_ & HM & HA).
    rewrite <- (mono_roles _ _ HM) in Hr.
    destruct (audit_honest _ HA s Hr) as [Ht _].
    by rewrite (get_node_color_run _ _ _ Ht).
Qed.



(** ** The report *)

Lemma A4_height_bounds : 841 < A4_height /\ A4_height < 842.
Proof. split; reflexivity. Qed.

Lemma report_row_run (w : World) (n : nat) :
  world_ok w = true -> n ∈ nodes (G w) ->
  report_row n w = Ok (row_text w n) w.
Proof.
  intros Hok Hn.
  destruct (world_ok_attributes w n Hok Hn) as (Hr & Ht & He & Hs & Hrc & Hd).
  unfold report_row, mbind, M_bind, dict_get.
  by rewrite Hr, Ht, He, Hs, Hrc, Hd.
Qed.

Lemma report_rows_run (w : World) (ns : list nat) (y : Q) (acc : list PdfCmd) :
  world_ok w = true -> (forall n, n ∈ ns -> n ∈ nodes (G w)) ->
  report_rows ns y acc w
  = Ok (fst (rows_cmds w ns y), acc ++ snd (rows_cmds w ns y)) w.
Proof.
  intros Hok. revert y acc. induction ns as [|n ns IH]; intros y acc Hns.
  - cbn. by rewrite app_nil_r.
  - cbn [report_rows rows_cmds]. unfold mbind, M_bind.
    rewrite (report_row_run w n Hok) by (apply Hns; left).
    destruct (Qltb (y - 15) 100); rewrite IH by (intros; apply Hns; by right);
      cbn [fst snd]; by rewrite <- !app_assoc.
Qed.

Lemma generate_pdf_report_run (w : World) (stamp date : string) :
  world_ok w = true ->
  generate_pdf_report stamp date w
  = Ok (("CNT_Sim_Report_" +:+ stamp +:+ ".pdf")%string, report_cmds w date) w.
Proof.
  intros Hok. unfold generate_pdf_report, mbind, M_bind, graph_nodes.
  rewrite (report_rows_run w) by done.
  unfold detected, total_of. cbn [fst snd].
  unfold report_cmds, report_summary, report_head, detected_text.
  unfold mret, M_ret. do 2 f_equal. rewrite <- app_assoc.
  by destruct (detected_of (trust_scores w)).
Qed.

Lemma rows_cmds_texts (w : World) (ns : list nat) (y : Q) :
  row_texts (snd (rows_cmds w ns y)) = map (row_text w) ns.
Proof.
  revert y. induction ns as [|n ns IH]; intros y; [done|].
  cbn [rows_cmds]. destruct (Qltb (y - 15) 100); cbn; by rewrite IH.
Qed.

Lemma rows_cmds_bounds (w : World) (ns : list nat) (y : Q) :
  100 <= y <= A4_height - 100 ->
  100 <= fst (rows_cmds w ns y) <= A4_height - 100 /\
  Forall row_call (snd (rows_cmds w ns y)).
Proof.
  destruct A4_height_bounds as [HA1 HA2].
  revert y. induction ns as [|n ns IH]; intros y Hy; [by split|].
  cbn [rows_cmds]. destruct (Qltb (y - 15) 100) eqn:E; cbn [fst snd].
  - destruct (IH (A4_height - 100)) as [H1 H2]; [lra|].
    split; [done|]. repeat constructor; try done; lra.
  - apply Qltb_ge in E. destruct (IH (y - 15)) as [H1 H2]; [lra|].
    split; [done|]. repeat constructor; try done; lra.
Qed.

Lemma inject_length_cons {A} (x : A) (l : list A) :
  inject_Z (Z.of_nat (length (x :: l))) == inject_Z (Z.of_nat (length l)) + 1.
Proof.
  cbn [length]. rewrite Nat2Z.inj_succ. unfold Z.succ.
  by rewrite inject_Z_plus.
Qed.

Lemma rows_cmds_one_page (w : World) (ns : list nat) (y : Q) :
  100 <= y - 15 * inject_Z (Z.of_nat (length ns)) ->
  (ShowPage ∉ snd (rows_cmds w ns y)) /\
  (fst (rows_cmds w ns y) == y - 15 * inject_Z (Z.of_nat (length ns))).
Proof.
  revert y. induction ns as [|n ns IH]; intros y Hy.
  - cbn [rows_cmds fst snd length]. change (Z.of_nat 0) with 0%Z.
    change (inject_Z 0) with 0. split; [apply not_elem_of_nil | lra].
  - rewrite inject_length_cons in Hy.
    assert (Hpos : 0 <= inject_Z (Z.of_nat (length ns))).
    { change 0 with (inject_Z 0). rewrite <- Zle_Qle. lia. }
    cbn [rows_cmds]. destruct (Qltb (y - 15) 100) eqn:E.
    + apply Qltb_lt in E. lra.
    + destruct (IH (y - 15)) as [H1 H2]; [lra|]. cbn [fst snd].
      split.
      * intros Hin. apply elem_of_cons in Hin as [Hin|Hin]; [done|]. done.
      * rewrite H2, inject_length_cons. lra.
Qed.

Lemma rows_cmds_page_break (w : World) (ns : list nat) (y : Q) :
  100 <= y ->
  y - 15 * inject_Z (Z.of_nat (length ns)) < 100 ->
  ShowPage ∈ snd (rows_cmds w ns y).
Proof.
  revert y. induction ns as [|n ns IH]; intros y Hy Hlow.
  - cbn [length] in Hlow. change (Z.of_nat 0) with 0%Z in Hlow.
    change (inject_Z 0) with 0 in Hlow. lra.
  - rewrite inject_length_cons in Hlow.
    cbn [rows_cmds]. destruct (Qltb (y - 15) 100) eqn:E; cbn [snd].
    + right. left.
    + apply Qltb_ge in E. right. apply IH; lra.
Qed.

Lemma report_summary_on_page (w : World) (y : Q) :
  100 <= y <= A4_height - 100 -> Forall on_page (report_summary w y).
Proof.
  intros Hy. destruct A4_height_bounds.
  unfold report_summary. repeat constructor; auto; lra.
Qed.

Lemma report_head_on_page (date : string) (count : nat) :
  Forall on_page (report_head date count).
Proof.
  destruct A4_height_bounds.
  unfold report_head. repeat constructor; auto; lra.
Qed.

Lemma row_call_on_page (c : PdfCmd) : row_call c -> on_page c.
Proof.
  destruct A4_height_bounds.
  destruct c; cbn; try done. intros [-> ?]. split; [by left | lra].
Qed.

Lemma report_start_bounds : 100 <= A4_height - 160 - 20 <= A4_height - 100.
Proof. destruct A4_height_bounds. lra. Qed.

Lemma row_texts_app (a b : list PdfCmd) :
  row_texts (a ++ b) = row_texts a ++ row_texts b.
Proof. apply omap_app. Qed.

Lemma report_cmds_rows (w : World) (date : string) :
  row_texts (report_cmds w date) = map (row_text w) (nodes (G w)).
Proof.
  unfold report_cmds. cbv zeta. rewrite !row_texts_app, rows_cmds_texts.
  change (row_texts (report_head date (length (nodes (G w))))) with
    (@nil (list Piece)).
  change (row_texts (report_summary w _)) with (@nil (list Piece)).
  by rewrite app_nil_r.
Qed.

Lemma run_total_sent (p : Q) (n : nat) (g : Rng) (k : nat) :
  (0 <= sum_values (packets_sent (after k (initial_world p n g)))
     <= Z.of_nat k)%Z.
Proof.
  assert (Hzero : sum_values (packets_sent (initial_world p n g)) = 0%Z).
  { apply sum_values_zero. intros s c Hc.
    destruct (initial_world_lookup p n g s)
      as [[_ (_ & _ & _ & E & _)] | [_ (_ & _ & _ & E & _)]]; rewrite E in Hc.
    - congruence.
    - cbn in Hc. by rewrite lookup_empty in Hc. }
  destruct (decide (0 < n)%nat) as [Hn|Hn].
  - destruct (run_loop_logged k (initial_world p n g)
                (initial_world_Inv _ _ _) (initial_world_nonempty _ _ _ Hn))
      as (rs & _ & Hlen & (_ & _ & _ & Ht)).
    rewrite Ht, Hzero. destruct (tally_bounds is_completed rs). lia.
  - rewrite run_loop_empty_graph.
    + rewrite Hzero. lia.
    + rewrite initial_world_nodes. by replace n with 0%nat by lia.
Qed.

(** X15.  The report lists every node once, in node order: in every state
    of a run [generate_pdf_report] raises nothing, leaves the state
    (generator included) as it is, names its file after the time stamp,
    ends with the [save] call, and its node rows are exactly the rows of
    nodes [0..n-1], in that order, each carrying the node's current role,
    trust, energy and counters. *)
Theorem report_lists_every_node (p : Q) (n : nat) (g : Rng) (k : nat)
    (stamp date : string) :
  let w := after k (initial_world p n g) in
  exists cmds,
    generate_pdf_report stamp date w
    = Ok (("CNT_Sim_Report_" +:+ stamp +:+ ".pdf")%string, cmds) w /\
    row_texts cmds = map (row_text w) (seq 0 n) /\
    last cmds = Some Save /\
    forall s, (s < n)%nat ->
      roles w !! s = Some (role_at w s) /\
      trust_scores w !! s = Some (trust_at w s) /\
      energy w !! s = Some (energy_at w s) /\
      packets_sent w !! s = Some (sent_at w s) /\
      packets_received w !! s = Some (received_at w s) /\
      packets_dropped w !! s = Some (dropped_at w s).
Proof.
  intros w.
  destruct (run_state_facts p n g k) as (HI & HM & _). fold w in HI, HM.
  assert (Hnodes : nodes (G w) = seq 0 n).
  { rewrite (mono_G _ _ HM). apply initial_world_nodes. }
  exists (report_cmds w date).
  split; [apply generate_pdf_report_run, (inv_ok w HI)|].
  split; [by rewrite report_cmds_rows, Hnodes|].
  split.
  { unfold report_cmds. cbv zeta. rewrite !app_assoc.
    unfold report_summary.
    match goal with |- last (?a ++ ?l) = _ =>
      change l with ((removelast l) ++ [Save])
    end.
    rewrite app_assoc. apply last_snoc. }
  intros s Hs. apply world_ok_attributes; [apply (inv_ok w HI)|].
  rewrite Hnodes, elem_of_seq. lia.
Qed.

(** X16.  The layout of the report: in every state of a run
    [generate_pdf_report] returns, and in the canvas calls it makes each
    text is drawn at the left margin 50 (the title at 150) and at a height
    between 0 and the A4 page height, so nothing is drawn off the page; and
    it starts a new page exactly when there are at least 38 nodes, so for
    the node counts the slider offers (5 to 20) the report is one page. *)
Theorem report_layout (p : Q) (n : nat) (g : Rng) (k : nat)
    (stamp date : string) :
  let w := after k (initial_world p n g) in
  exists cmds,
    generate_pdf_report stamp date w
    = Ok (("CNT_Sim_Report_" +:+ stamp +:+ ".pdf")%string, cmds) w /\
    Forall on_page cmds /\
    (ShowPage ∈ cmds <-> (38 <= n)%nat).
Proof.
  intros w.
  destruct (run_state_facts p n g k) as (HI & HM & _). fold w in HI, HM.
  assert (Hnodes : nodes (G w) = seq 0 n).
  { rewrite (mono_G _ _ HM). apply initial_world_nodes. }
  destruct A4_height_bounds as [HA1 HA2].
  destruct (rows_cmds_bounds w (nodes (G w)) (A4_height - 160 - 20)
              report_start_bounds) as [Hy Hrows].
  assert (Hlen : length (nodes (G w)) = n) by (by rewrite Hnodes, length_seq).
  exists (report_cmds w date).
  split; [apply generate_pdf_report_run, (inv_ok w HI)|].
  split.
  - unfold report_cmds. cbv zeta. rewrite !Forall_app.
    split; [apply report_head_on_page|].
    split; [|by apply report_summary_on_page].
    eapply Forall_impl; [exact Hrows|]. apply row_call_on_page.
  - unfold report_cmds. cbv zeta. rewrite !elem_of_app.
    assert (Hq : forall m : nat,
              inject_Z (Z.of_nat n) <= inject_Z (Z.of_nat m) <-> (n <= m)%nat).
    { intros m. rewrite <- Zle_Qle. lia. }
    split.
    + intros [Hin | [Hin | Hin]].
      * unfold report_head in Hin.
        repeat (apply elem_of_cons in Hin as [Hin|Hin]; [discriminate|]).
        by apply elem_of_nil in Hin.
      * destruct (decide (38 <= n)%nat) as [|Hsmall]; [done|]. exfalso.
        assert (Hle : inject_Z (Z.of_nat n) <= inject_Z (Z.of_nat 37))
          by (apply Hq; lia).
        change (inject_Z (Z.of_nat 37)) with 37 in Hle.
        destruct (rows_cmds_one_page w (nodes (G w)) (A4_height - 160 - 20))
          as [Hno _]; [rewrite Hlen; lra | done].
      * unfold report_summary in Hin.
        repeat (apply elem_of_cons in Hin as [Hin|Hin]; [discriminate|]).
        by apply elem_of_nil in Hin.
    + intros Hbig. right. left.
      assert (Hge : inject_Z (Z.of_nat 38) <= inject_Z (Z.of_nat n)).
      { rewrite <- Zle_Qle. lia. }
      change (inject_Z (Z.of_nat 38)) with 38 in Hge.
      apply rows_cmds_page_break; [lra | rewrite Hlen; lra].
Qed.

(** X17.  The summary of the report is consistent: in every state of a
    run [generate_pdf_report] returns, and the canvas calls it makes end
    with the detected line, the three totals and [save]; Received plus
    Dropped equals Sent; Sent is at most the number of loop iterations; and
    the detected line reads None exactly when no node has trust below
    0.4. *)
Theorem report_summary_consistent (p : Q) (n : nat) (g : Rng) (k : nat)
    (stamp date : string) :
  let w := after k (initial_world p n g) in
  exists (pre : list PdfCmd) (y : Q) (dt : Piece) (S R D : Z),
    generate_pdf_report stamp date w
    = Ok (("CNT_Sim_Report_" +:+ stamp +:+ ".pdf")%string,
          pre ++
          [DrawString 50 (y - 40) [Lit "Detected Suspicious Nodes: "; dt];
           DrawString 50 (y - 40 - 20) [Lit "Total Packets Sent: "; Int S];
           DrawString 50 (y - 40 - 20 - 20)
             [Lit "Total Packets Received: "; Int R];
           DrawString 50 (y - 40 - 20 - 20 - 20)
             [Lit "Total Packets Dropped: "; Int D];
           Save]) w /\
    (R + D = S)%Z /\ (0 <= S <= Z.of_nat k)%Z /\
    (dt = Lit "None" <->
     forall s t, trust_scores w !! s = Some t -> 2 # 5 <= t).
Proof.
  intros w.
  destruct (run_state_facts p n g k) as (HI & _ & _). fold w in HI.
  set (rows := rows_cmds w (nodes (G w)) (A4_height - 160 - 20)).
  exists (report_head date (length (nodes (G w))) ++ snd rows ++
          [SetFont "Helvetica-Bold" 12;
           DrawString 50 (fst rows - 20) [Lit "Summary:"];
           SetFont "Helvetica" 11]),
         (fst rows), (detected_text w),
         (sum_values (packets_sent w)), (sum_values (packets_received w)),
         (sum_values (packets_dropped w)).
  split.
  { rewrite (generate_pdf_report_run w stamp date (inv_ok w HI)).
    do 2 f_equal.
    unfold report_cmds. cbv zeta. fold rows. unfold report_summary.
    by rewrite <- !app_assoc. }
  split; [apply (inv_conserved w HI)|].
  split; [apply run_total_sent|].
  unfold detected_text.
  destruct (detected_of (trust_scores w)) as [|x l] eqn:Ed; split.
  - intros _ s t Ht. destruct (Qlt_le_dec t (2 # 5)) as [Hlt|]; [|done].
    assert (Hin : s ∈ detected_of (trust_scores w))
      by (apply detected_of_elem; eauto).
    rewrite Ed in Hin. by apply elem_of_nil in Hin.
  - done.
  - done.
  - intros Hall. exfalso.
    assert (Hin : x ∈ detected_of (trust_scores w)) by (rewrite Ed; left).
    apply detected_of_elem in Hin as (t & Ht & Hlt).
    specialize (Hall x t Ht). lra.
Qed.

(** ** The draws a run makes *)

Lemma combinations_length (n : nat) :
  (2 * length (combinations n) = n * (n - 1))%nat.
Proof.
  unfold combinations.
  assert (H : forall k a, (a + k = n)%nat ->
            (2 * length (flat_map
                           (fun i => map (fun j => (i, j)) (seq (S i) (n - S i)))
                           (seq a k)) = k * (k - 1))%nat).
  { intros k. induction k as [|k IH]; intros a Hak; [done|].
    cbn [seq flat_map]. rewrite length_app, length_map, length_seq.
    specialize (IH (S a) ltac:(lia)). nia. }
  apply (H n 0%nat). lia.
Qed.

Lemma gnp_loop_drew (p : Q) (es : list (nat * nat)) (gr : Graph) (g : Rng) :
  tape (snd (gnp_loop p es gr g)) = tape g /\
  pos (snd (gnp_loop p es gr g)) = (pos g + length es)%nat.
Proof.
  revert gr g. induction es as [|[u v] es IH]; intros gr g.
  - cbn. split; [done | lia].
  - cbn [gnp_loop]. unfold rng_next.
    destruct (IH (if Qltb (draw_val (tape g (pos g))) p
                  then add_edge u v gr else gr)
                 {| tape := tape g; pos := S (pos g) |}) as [H1 H2].
    rewrite H1, H2. cbn. split; [done | lia].
Qed.

Lemma for_each_init_node_drew (l : list nat) (w : World) :
  drew w (world_of (for_each l init_node w)) (length l).
Proof.
  revert w. induction l as [|x l IH]; intros w.
  - split; cbn; [done | lia].
  - destruct (init_node_run x w) as [r Hr].
    change (for_each (x :: l) init_node w)
      with (match init_node x w with
            | Ok _ w0 => for_each l init_node w0
            | Raise e w0 => Raise e w0
            end).
    rewrite Hr. destruct (IH (mkWorld (G w) (<[x:=r]> (roles w))
        (<[x:=1]> (trust_scores w)) (<[x:=100]> (energy w))
        (<[x:=0%Z]> (packets_sent w)) (<[x:=0%Z]> (packets_received w))
        (<[x:=0%Z]> (packets_dropped w)) (snd (rng_next (rng w)))))
      as [H1 H2].
    split; [by rewrite H1|]. rewrite H2. cbn. lia.
Qed.

Lemma initial_world_drew (p : Q) (n : nat) (g : Rng) :
  drew (blank g) (initial_world p n g)
    ((if Qle_bool p 0 || Qle_bool 1 p then 0 else length (combinations n)) + n).
Proof.
  unfold initial_world, initialize. cbn [rng blank].
  destruct (erdos_renyi_graph_spec n p g) as [Hn _].
  assert (Hg : tape (snd (erdos_renyi_graph n p g)) = tape g /\
               pos (snd (erdos_renyi_graph n p g)) =
                 (pos g + if Qle_bool p 0 || Qle_bool 1 p then 0
                          else length (combinations n))%nat).
  { unfold erdos_renyi_graph.
    destruct (Qle_bool p 0); [cbn; split; [done | lia]|].
    destruct (Qle_bool 1 p); [cbn; split; [done | lia]|].
    apply gnp_loop_drew. }
  destruct (erdos_renyi_graph n p g) as [gr g'] eqn:Eg.
  cbn [fst snd] in Hn, Hg. destruct Hg as [Hg1 Hg2].
  destruct (for_each_init_node_drew (nodes gr)
              (with_rng g' (with_G gr (blank g)))) as [H1 H2].
  split.
  - rewrite H1. cbn. exact Hg1.
  - rewrite H2. cbn [rng with_rng blank]. rewrite Hg2, Hn, length_seq. lia.
Qed.

Lemma simulate_step_drew (w : World) (r : option Outcome) (w1 : World) :
  Inv w -> simulate_step w = Ok r w1 -> drew w w1 (draws_of_step w r).
Proof.
  intros HI Hstep.
  destruct (simulate_step_cases w (inv_ok w HI))
    as [[_ E] | [(s & _ & _ & E) | (d & Hd & _ & Hsn & _)]].
  - congruence.
  - rewrite E in Hstep. injection Hstep as <- <-.
    split; cbn; [done | lia].
  - destruct (simulate_step_reads w d Hd) as [E _].
    rewrite E in Hstep. injection Hstep as <- <-.
    destruct Hd as (_ & _ & _ & Hrole & _).
    unfold draws_of_step, role_at. cbn [fst]. rewrite Hrole. cbn [default].
    unfold completed_world, rd_counted, counted. cbn [rng].
    destruct (rd_role d); split; cbn; try done; lia.
Qed.

Lemma drew_trans (a b c : World) (x y : nat) :
  drew a b x -> drew b c y -> drew a c (x + y).
Proof. intros [T1 P1] [T2 P2]. split; [congruence | lia]. Qed.

Lemma run_loop_drew (k : nat) (w : World) :
  Inv w -> nodes (G w) <> [] ->
  exists c, drew w (after k w) c /\ (k <= c <= 4 * k)%nat.
Proof.
  revert w. induction k as [|k IH]; intros w HI Hne.
  - exists 0%nat. split; [split; cbn; [done | lia] | lia].
  - destruct (simulate_step_no_raise w HI Hne) as (r & w1 & Hr).
    destruct (simulate_step_Inv w HI) as [HI1 HM1]. rewrite Hr in HI1, HM1.
    cbn in HI1, HM1.
    destruct (IH w1 HI1) as (c & Hc & Hb).
    { by rewrite (mono_G _ _ HM1). }
    rewrite after_S_first, Hr.
    exists (draws_of_step w r + c)%nat.
    split; [eapply drew_trans; [by apply simulate_step_drew | done]|].
    assert (1 <= draws_of_step w r <= 4)%nat.
    { unfold draws_of_step. destruct r as [o|]; [|lia].
      destruct (role_at w (fst (fst o))); lia. }
    lia.
Qed.

(** X18.  The draws a run makes: the tape of the generator is only read,
    never rewound or replaced.  Initialisation with an edge probability
    strictly between 0 and 1 makes exactly [n(n-1)/2] draws for the edges
    and [n] for the roles; each loop iteration then makes one draw when
    the step is skipped, three when an Honest sender completes it and four
    otherwise; so the script's run of fifty iterations over at least one
    node makes between 50 and 200 further draws. *)
Theorem run_draw_budget (n : nat) (g : Rng) :
  (0 < n)%nat ->
  let w0 := initial_world (2 # 5) n g in
  exists edges c : nat,
    (2 * edges = n * (n - 1))%nat /\
    tape (rng w0) = tape g /\ pos (rng w0) = (pos g + edges + n)%nat /\
    tape (rng (after 50 w0)) = tape g /\
    pos (rng (after 50 w0)) = (pos g + edges + n + c)%nat /\
    (50 <= c <= 200)%nat /\
    forall (w : World) (r : option Outcome) (w1 : World),
      Inv w -> simulate_step w = Ok r w1 -> drew w w1 (draws_of_step w r).
Proof.
  intros Hn w0.
  destruct (initial_world_drew (2 # 5) n g) as [T0 P0].
  change (Qle_bool (2 # 5) 0 || Qle_bool 1 (2 # 5)) with false in P0.
  cbn [rng blank] in T0, P0.
  destruct (run_loop_drew 50 w0 (initial_world_Inv _ _ _)
              (initial_world_nonempty _ _ _ Hn)) as (c & [T1 P1] & Hb).
  exists (length (combinations n)), c.
  split; [apply combinations_length|].
  split; [exact T0|]. split; [fold w0 in P0; lia|].
  split; [by rewrite T1|]. split; [rewrite P1; fold w0 in P0; lia|].
  split; [lia|]. apply simulate_step_drew.
Qed.

(** ** The topology as a simple undirected graph *)

Lemma add_key_NoDup (v : nat) (l : list nat) : NoDup l -> NoDup (add_key v l).
Proof.
  intros Hl. unfold add_key. case_decide; [done|].
  apply NoDup_app. split; [done|]. split; [|apply NoDup_singleton].
  intros x Hx Hx'. apply list_elem_of_singleton in Hx' as ->. done.
Qed.

Lemma add_edge_adj_of (u v x : nat) (gr : Graph) :
  u ∈ nodes gr -> v ∈ nodes gr -> u <> v ->
  adj_of (add_edge u v gr) x =
    if decide (x = v) then add_key u (adj_of gr v)
    else if decide (x = u) then add_key v (adj_of gr u)
    else adj_of gr x.
Proof.
  intros Hu Hv Huv. unfold add_edge.
  rewrite (add_node_present u gr Hu), (add_node_present v gr Hv).
  unfold adj_of at 1. cbn [adj].
  destruct (decide (x = v)) as [->|Hxv].
  - rewrite lookup_insert_eq. cbn. rewrite lookup_insert_ne by done. done.
  - rewrite lookup_insert_ne by done.
    destruct (decide (x = u)) as [->|Hxu].
    + rewrite lookup_insert_eq. done.
    + rewrite lookup_insert_ne by done. done.
Qed.

Lemma add_edge_adjacent (u v x y : nat) (gr : Graph) :
  u ∈ nodes gr -> v ∈ nodes gr -> u <> v ->
  adjacent (add_edge u v gr) x y <->
  adjacent gr x y \/ (x = u /\ y = v) \/ (x = v /\ y = u).
Proof.
  intros Hu Hv Huv. unfold adjacent.
  rewrite (add_edge_adj_of u v x gr Hu Hv Huv).
  repeat case_decide; subst; rewrite ?add_key_elem;
    intuition (subst; auto; congruence).
Qed.

Lemma add_edge_NoDup (u v : nat) (gr : Graph) :
  u ∈ nodes gr -> v ∈ nodes gr -> u <> v ->
  (forall x, NoDup (adj_of gr x)) ->
  forall x, NoDup (adj_of (add_edge u v gr) x).
Proof.
  intros Hu Hv Huv Hnd x. rewrite (add_edge_adj_of u v x gr Hu Hv Huv).
  repeat case_decide; auto using add_key_NoDup.
Qed.

Lemma gnp_loop_adjacent (p : Q) (es : list (nat * nat)) (gr : Graph) (g : Rng)
    (x y : nat) :
  edges_within gr es ->
  adjacent (fst (gnp_loop p es gr g)) x y <->
  adjacent gr x y \/
  exists i, (es !! i = Some (x, y) \/ es !! i = Some (y, x)) /\
            draw_val (tape g (pos g + i)%nat) < p.
Proof.
  revert gr g. induction es as [|[u v] es IH]; intros gr g Hes.
  - cbn. split; [auto|]. intros [?|(i & [H|H] & _)]; done.
  - destruct (Hes u v) as (Hu & Hv & Huv); [left|].
    cbn [gnp_loop]. unfold rng_next.
    set (gr' := if Qltb (draw_val (tape g (pos g))) p
                then add_edge u v gr else gr).
    assert (Hn : nodes gr' = nodes gr).
    { unfold gr'. case_match; [by apply add_edge_nodes | done]. }
    rewrite (IH gr' {| tape := tape g; pos := S (pos g) |}).
    2:{ intros a b Hab. rewrite Hn. apply Hes. by right. }
    cbn [tape pos].
    assert (Hgr' : adjacent gr' x y <->
              adjacent gr x y \/
              (((x = u /\ y = v) \/ (x = v /\ y = u)) /\
               draw_val (tape g (pos g)) < p)).
    { unfold gr'. destruct (Qltb (draw_val (tape g (pos g))) p) eqn:E.
      - apply Qltb_lt in E. rewrite add_edge_adjacent by done. tauto.
      - apply Qltb_ge in E. split; [auto|]. intros [?|[_ Hlt]]; [done | lra]. }
    rewrite Hgr'. split.
    + intros [[Hadj | [Hxy Hlt]] | (i & Hi & Hlt)].
      * by left.
      * right. exists 0%nat. rewrite Nat.add_0_r. split; [|done].
        cbn. destruct Hxy as [[-> ->]|[-> ->]]; auto.
      * right. exists (S i). split; [done|].
        by replace (pos g + S i)%nat with (S (pos g) + i)%nat by lia.
    + intros [Hadj | (i & Hi & Hlt)]; [by left; left|].
      destruct i as [|i].
      * left. right. rewrite Nat.add_0_r in Hlt. split; [|done].
        cbn in Hi. destruct Hi as [[= <- <-]|[= <- <-]]; auto.
      * right. exists i. split; [done|].
        by replace (S (pos g) + i)%nat with (pos g + S i)%nat by lia.
Qed.

Lemma gnp_loop_NoDup (p : Q) (es : list (nat * nat)) (gr : Graph) (g : Rng) :
  edges_within gr es -> (forall x, NoDup (adj_of gr x)) ->
  forall x, NoDup (adj_of (fst (gnp_loop p es gr g)) x).
Proof.
  revert gr g. induction es as [|[u v] es IH]; intros gr g Hes Hnd; [done|].
  destruct (Hes u v) as (Hu & Hv & Huv); [left|].
  cbn [gnp_loop]. unfold rng_next.
  apply IH.
  - intros a b Hab.
    assert (Hn : nodes (if Qltb (draw_val (tape g (pos g))) p
                        then add_edge u v gr else gr) = nodes gr).
    { case_match; [by apply add_edge_nodes | done]. }
    rewrite Hn. apply Hes. by right.
  - case_match; [by apply add_edge_NoDup | done].
Qed.

Lemma add_edges_from_adjacent (es : list (nat * nat)) (gr : Graph) (x y : nat) :
  edges_within gr es ->
  adjacent (add_edges_from es gr) x y <->
  adjacent gr x y \/ (x, y) ∈ es \/ (y, x) ∈ es.
Proof.
  revert gr. induction es as [|[u v] es IH]; intros gr Hes.
  - cbn. split; [auto|]. intros [?|[H|H]]; [done|by apply elem_of_nil in H..].
  - destruct (Hes u v) as (Hu & Hv & Huv); [left|].
    change (add_edges_from ((u, v) :: es) gr)
      with (add_edges_from es (add_edge u v gr)).
    rewrite IH.
    2:{ intros a b Hab. rewrite add_edge_nodes by done. apply Hes. by right. }
    rewrite add_edge_adjacent by done. rewrite !elem_of_cons.
    assert (Hp1 : (x, y) = (u, v) <-> x = u /\ y = v)
      by (split; [intros [= -> ->] | intros [-> ->]]; done).
    assert (Hp2 : (y, x) = (u, v) <-> x = v /\ y = u)
      by (split; [intros [= -> ->] | intros [-> ->]]; done).
    rewrite Hp1, Hp2. tauto.
Qed.

Lemma add_edges_from_NoDup (es : list (nat * nat)) (gr : Graph) :
  edges_within gr es -> (forall x, NoDup (adj_of gr x)) ->
  forall x, NoDup (adj_of (add_edges_from es gr) x).
Proof.
  revert gr. induction es as [|[u v] es IH]; intros gr Hes Hnd; [done|].
  destruct (Hes u v) as (Hu & Hv & Huv); [left|].
  change (add_edges_from ((u, v) :: es) gr)
    with (add_edges_from es (add_edge u v gr)).
  apply IH.
  - intros a b Hab. rewrite add_edge_nodes by done. apply Hes. by right.
  - by apply add_edge_NoDup.
Qed.

Lemma empty_graph_adj_of (n x : nat) : adj_of (empty_graph n) x = [].
Proof.
  unfold adj_of. destruct (empty_graph_spec n) as [_ ->]. by case_decide.
Qed.

Lemma combinations_complete (n x y : nat) :
  (x, y) ∈ combinations n <-> (x < y)%nat /\ (y < n)%nat.
Proof.
  split; [apply combinations_elem|]. intros [Hxy Hyn].
  unfold combinations. apply list_elem_of_In, in_flat_map.
  exists x. split; [apply in_seq; lia|].
  apply in_map_iff. exists y. split; [done|]. apply in_seq. lia.
Qed.

(** X19.  The topology of a run is a simple undirected graph on the nodes
    [0..n-1]: whatever the edge probability and the draws, a neighbour of
    a node is another node of the graph, adjacency is symmetric, no node
    neighbours itself, and no neighbour is listed twice; this holds at
    every point of the run. *)
Theorem topology_simple_undirected (p : Q) (n : nat) (g : Rng) (k : nat) :
  let gr := G (after k (initial_world p n g)) in
  nodes gr = seq 0 n /\
  (forall x y, adjacent gr x y ->
     (x < n)%nat /\ (y < n)%nat /\ x <> y /\ adjacent gr y x) /\
  (forall x, NoDup (adj_of gr x)).
Proof.
  intros gr.
  destruct (run_state_facts p n g k) as (_ & HM & _).
  assert (Egr : gr = fst (erdos_renyi_graph n p g)).
  { unfold gr. rewrite (mono_G _ _ HM).
    by destruct (initialize_run p n g) as (_ & -> & _). }
  rewrite Egr. clear gr Egr HM.
  split; [apply erdos_renyi_graph_spec|].
  assert (Hcomb : forall x y, (x, y) ∈ combinations n \/ (y, x) ∈ combinations n ->
            (x < n)%nat /\ (y < n)%nat /\ x <> y).
  { intros x y [H|H]; apply combinations_elem in H; lia. }
  assert (Hempty : forall x, NoDup (adj_of (empty_graph n) x)).
  { intros x. rewrite empty_graph_adj_of. constructor. }
  unfold erdos_renyi_graph.
  destruct (Qle_bool p 0); [|destruct (Qle_bool 1 p)]; cbn [fst].
  - split; [|done]. intros x y Hadj. unfold adjacent in Hadj.
    rewrite empty_graph_adj_of in Hadj. by apply elem_of_nil in Hadj.
  - split; [|by apply add_edges_from_NoDup, Hempty; apply combinations_within].
    intros x y Hadj.
    apply (add_edges_from_adjacent _ _ _ _ (combinations_within n)) in Hadj.
    destruct Hadj as [Hadj|Hadj].
    { unfold adjacent in Hadj. rewrite empty_graph_adj_of in Hadj.
      by apply elem_of_nil in Hadj. }
    destruct (Hcomb x y Hadj) as (? & ? & ?). repeat split; try done.
    apply (add_edges_from_adjacent _ _ _ _ (combinations_within n)).
    right. tauto.
  - split; [|by apply gnp_loop_NoDup, Hempty; apply combinations_within].
    intros x y Hadj.
    apply (gnp_loop_adjacent _ _ _ _ _ _ (combinations_within n)) in Hadj.
    destruct Hadj as [Hadj | (i & Hi & Hlt)].
    { unfold adjacent in Hadj. rewrite empty_graph_adj_of in Hadj.
      by apply elem_of_nil in Hadj. }
    assert (Hin : (x, y) ∈ combinations n \/ (y, x) ∈ combinations n).
    { destruct Hi as [Hi|Hi]; [left | right];
        by apply list_elem_of_lookup_2 in Hi. }
    destruct (Hcomb x y Hin) as (? & ? & ?). repeat split; try done.
    apply (gnp_loop_adjacent _ _ _ _ _ _ (combinations_within n)).
    right. exists i. split; [tauto | done].
Qed.

(** X20.  Which edges the topology has: with an edge probability strictly
    between 0 and 1 (the script's is 0.4) two nodes are adjacent exactly
    when their pair is the [i]-th of [combinations(range(n), 2)] and the
    [i]-th draw of the generator is below the probability; with a
    probability of 0 or less there is no edge, and with 1 or more every
    two distinct nodes are adjacent, without any draw. *)
Theorem topology_edges_follow_draws (p : Q) (n : nat) (g : Rng) (x y : nat) :
  let gr := G (initial_world p n g) in
  (0 < p -> p < 1 ->
   (adjacent gr x y <->
    exists i, pair_at n i x y /\ draw_val (tape g (pos g + i)%nat) < p)) /\
  (p <= 0 -> ~ adjacent gr x y) /\
  (1 <= p -> (adjacent gr x y <-> (x < n)%nat /\ (y < n)%nat /\ x <> y)).
Proof.
  intros gr.
  assert (Egr : gr = fst (erdos_renyi_graph n p g)).
  { unfold gr. by destruct (initialize_run p n g) as (_ & -> & _). }
  rewrite Egr. clear gr Egr.
  assert (Hnone : ~ adjacent (empty_graph n) x y).
  { unfold adjacent. rewrite empty_graph_adj_of. apply not_elem_of_nil. }
  unfold erdos_renyi_graph.
  destruct (Qle_bool p 0) eqn:E0; [apply Qle_bool_iff in E0|];
    [|destruct (Qle_bool 1 p) eqn:E1; [apply Qle_bool_iff in E1|]]; cbn [fst].
  - split; [intros; lra|]. split; [done|]. intros; lra.
  - split; [intros; lra|]. split; [intros; lra|]. intros _.
    rewrite (add_edges_from_adjacent _ _ _ _ (combinations_within n)).
    rewrite !combinations_complete. split.
    + intros [?|[?|?]]; [done|lia..].
    + intros (? & ? & ?). right.
      destruct (decide (x < y)%nat); [left | right]; lia.
  - assert (H0 : ~ p <= 0).
    { intros H. apply Qle_bool_iff in H. congruence. }
    assert (H1 : ~ 1 <= p).
    { intros H. apply Qle_bool_iff in H. congruence. }
    split; [|split; intros; lra].
    intros _ _.
    rewrite (gnp_loop_adjacent _ _ _ _ _ _ (combinations_within n)).
    unfold pair_at. split; [intros [?|?]; done | intros ?; by right].
Qed.

(** X10 for five nodes. *)
Lemma simulation_shows_completed_steps_witness :
  (0 < 5)%nat /\
  exists fs,
    simulation (initial_world (2 # 5) 5 (linear_rng 7 3))
    = Ok fs (after 50 (initial_world (2 # 5) 5 (linear_rng 7 3))) /\
    map fr_sent fs = map Z.of_nat (seq 1 (length fs)) /\
    (length fs <= 50)%nat.
Proof.
  assert (Hn : (0 < 5)%nat) by lia.
  split; [exact Hn|].
  destruct (simulation_shows_completed_steps (2 # 5) 5 (linear_rng 7 3) Hn)
    as (rs & fs & _ & Hsim & _ & Hsent & _ & Hle).
  exists fs. split; [exact Hsim|]. split; [exact Hsent | exact Hle].
Defined.


(** X12 for node 2 of the sample run, flagged after fifty iterations. *)
Lemma suspects_are_orange_or_red_witness :
  2%nat ∈ detected_of
    (trust_scores (after 50 (initial_world (2 # 5) 5 (linear_rng 7 3)))) /\
  exists c,
    get_node_color 2 (after 50 (initial_world (2 # 5) 5 (linear_rng 7 3)))
    = Ok c (after 50 (initial_world (2 # 5) 5 (linear_rng 7 3))) /\
    (c = "#ff6600"%string \/ c = "#ff0000"%string).
Proof.
  assert (Hin : 2%nat ∈ detected_of
                  (trust_scores (after 50 (initial_world (2 # 5) 5
                                             (linear_rng 7 3))))).
  { apply detected_of_elem. exists 0. split; [vm_compute; reflexivity | lra]. }
  split; [exact Hin|].
  exact (proj1 suspects_are_orange_or_red _ 2%nat Hin).
Defined.

(** X13 for node 2 of five. *)
Lemma honest_nodes_stay_green_witness :
  (2 < 5)%nat /\
  get_node_color 2 (initial_world (2 # 5) 5 (linear_rng 7 3))
  = Ok "#00b300"%string (initial_world (2 # 5) 5 (linear_rng 7 3)).
Proof.
  assert (Hs : (2 < 5)%nat) by lia.
  split; [exact Hs|].
  exact (proj1 (honest_nodes_stay_green (2 # 5) 5 (linear_rng 7 3) 0 2 Hs)).
Defined.


(** X18 for five nodes: ten edge draws, five role draws. *)
Lemma run_draw_budget_witness :
  (0 < 5)%nat /\
  pos (rng (initial_world (2 # 5) 5 (linear_rng 7 3))) = 15%nat /\
  exists c,
    pos (rng (after 50 (initial_world (2 # 5) 5 (linear_rng 7 3))))
    = (15 + c)%nat /\ (50 <= c <= 200)%nat.
Proof.
  assert (Hn : (0 < 5)%nat) by lia.
  split; [exact Hn|].
  destruct (run_draw_budget 5 (linear_rng 7 3) Hn)
    as (edges & c & He & _ & P0 & _ & P1 & Hb & _).
  assert (edges = 10%nat) as -> by lia.
  split; [exact P0|]. exists c. split; [exact P1 | exact Hb].
Defined.

(** X20 for the script's probability 0.4 and the pair of nodes 0 and 1. *)
Lemma topology_edges_follow_draws_witness :
  0 < 2 # 5 /\ 2 # 5 < 1 /\
  (adjacent (G (initial_world (2 # 5) 5 (linear_rng 7 3))) 0 1 <->
   exists i, pair_at 5 i 0 1 /\
             draw_val (tape (linear_rng 7 3) (pos (linear_rng 7 3) + i)%nat)
             < 2 # 5).
Proof.
  assert (H0 : 0 < 2 # 5) by reflexivity.
  assert (H1 : 2 # 5 < 1) by reflexivity.
  split; [exact H0|]. split; [exact H1|].
  exact (proj1 (topology_edges_follow_draws (2 # 5) 5 (linear_rng 7 3) 0 1)
           H0 H1).
Defined.

(** ** Initialisation *)

(** X21.  Initialisation (lines 22-36) creates the nodes and their
    attributes and nothing else: for every node count [n], and whatever
    the generator delivers, it completes; the topology has the nodes
    [0..n-1], each of them gets a role, trust 1.0, energy 100.0 and three
    zero counters, and no dictionary has any other key. *)
Theorem module_init_creates_nodes (n : nat) (g : Rng) :
  exists w',
    module_init n (blank g) = Ok tt w' /\
    nodes (G w') = seq 0 n /\
    (forall u, (u < n)%nat ->
       is_Some (roles w' !! u) /\
       trust_scores w' !! u = Some 1 /\ energy w' !! u = Some 100 /\
       packets_sent w' !! u = Some 0%Z /\ packets_received w' !! u = Some 0%Z /\
       packets_dropped w' !! u = Some 0%Z) /\
    (forall u, (n <= u)%nat ->
       roles w' !! u = None /\
       trust_scores w' !! u = None /\ energy w' !! u = None /\
       packets_sent w' !! u = None /\ packets_received w' !! u = None /\
       packets_dropped w' !! u = None).
Proof.
  destruct (initialize_run (2 # 5) n g) as (Hrun & HG & Hall).
  destruct (erdos_renyi_graph_spec n (2 # 5) g) as [Hn _].
  exists (initial_world (2 # 5) n g).
  split; [done|]. split; [by rewrite HG|].
  split; intros u Hu.
  - by apply Hall.
  - destruct (proj2 (Hall u) Hu) as (E1 & E2 & E3 & E4 & E5 & E6).
    rewrite E1, E2, E3, E4, E5, E6. cbn. by rewrite !lookup_empty.
Qed.

(** ** The updater in binary64 *)

(** X22.  With the roundings of binary64 the updater keeps the ranges:
    for a sender whose trust is a double in [0,1] and whose energy is a
    non-negative double, [update_trust_energy_b64] returns normally, the new
    trust is in [0,1], not below the old one on success and not above it
    on failure, and the new energy is between 0 and the old energy. *)
Theorem update_trust_energy_b64_ranges (w : World) (s : nat) (success : bool)
    (t e : Q) :
  trust_scores w !! s = Some t ->
  energy w !! s = Some e ->
  0 <= t <= 1 -> b64 t = t ->
  0 <= e -> b64 e = e ->
  exists (t' e' : Q) (w' : World),
    update_trust_energy_b64 s success w = Ok tt w' /\
    trust_scores w' !! s = Some t' /\ energy w' !! s = Some e' /\
    0 <= t' <= 1 /\
    (if success then t <= t' else t' <= t) /\
    0 <= e' <= e.
Proof.
  intros Ht He Hrt Hdt Hre Hde.
  exists (new_trust_b64 success t), (py_max 0 (fsub e (energy_cost_b64 w))).
  eexists. split; [by apply update_trust_energy_b64_run|]. cbn.
  split; [apply lookup_insert_eq|]. split; [apply lookup_insert_eq|].
  assert (H1 : b64 1 = 1) by (vm_compute; reflexivity).
  assert (Hc5 : 0 < double_0_05) by reflexivity.
  assert (Hc1 : 0 < double_0_1) by reflexivity.
  assert (Hup : t <= fadd t double_0_05).
  { unfold fadd. rewrite <- Hdt at 1. apply b64_le; lra. }
  assert (Hdn : fsub t double_0_1 <= t).
  { unfold fsub. destruct (Qlt_le_dec (t - double_0_1) 0) as [Hneg|Hpos].
    - pose proof (b64_nonpos (t - double_0_1) ltac:(lra)). lra.
    - rewrite <- Hdt at 2. apply b64_le; lra. }
  destruct (energy_cost_b64_range w) as [Hu _].
  assert (He' : fsub e (energy_cost_b64 w) <= e).
  { unfold fsub. destruct (Qlt_le_dec (e - energy_cost_b64 w) 0) as [Hneg|Hpos].
    - pose proof (b64_nonpos (e - energy_cost_b64 w) ltac:(lra)). lra.
    - rewrite <- Hde at 2. apply b64_le; lra. }
  split; [|split].
  - unfold new_trust_b64. destruct success.
    + rewrite py_min_spec. split; [apply Q.min_glb; lra | apply Q.le_min_l].
    + rewrite py_max_spec. split; [apply Q.le_max_l | apply Q.max_lub; lra].
  - unfold new_trust_b64. destruct success.
    + rewrite py_min_spec. apply Q.min_glb; lra.
    + rewrite py_max_spec. apply Q.max_lub; lra.
  - rewrite py_max_spec. split; [apply Q.le_max_l | apply Q.max_lub; lra].
Qed.

(** X22 on a success of node 2 in [sample_world_09]. *)
Lemma update_trust_energy_b64_ranges_witness :
  trust_scores sample_world_09 !! 2%nat
  = Some (8106479329266893 # 9007199254740992) /\
  energy sample_world_09 !! 2%nat = Some 100 /\
  exists (t' : Q) (w' : World),
    update_trust_energy_b64 2 true sample_world_09 = Ok tt w' /\
    trust_scores w' !! 2%nat = Some t' /\
    8106479329266893 # 9007199254740992 <= t' /\ t' <= 1.
Proof.
  assert (Ht : trust_scores sample_world_09 !! 2%nat
               = Some (8106479329266893 # 9007199254740992))
    by (vm_compute; reflexivity).
  assert (He : energy sample_world_09 !! 2%nat = Some 100)
    by (vm_compute; reflexivity).
  assert (Hrt : 0 <= 8106479329266893 # 9007199254740992 <= 1)
    by (split; discriminate).
  assert (Hdt : b64 (8106479329266893 # 9007199254740992)
                = 8106479329266893 # 9007199254740992)
    by (vm_compute; reflexivity).
  assert (Hre : 0 <= 100) by discriminate.
  assert (Hde : b64 100 = 100) by (vm_compute; reflexivity).
  split; [exact Ht|]. split; [exact He|].
  destruct (update_trust_energy_b64_ranges sample_world_09 2 true
              (8106479329266893 # 9007199254740992) 100 Ht He Hrt Hdt Hre Hde)
    as (t' & e' & w' & Hrun & Ht' & _ & [_ Hhi] & Hmono & _).
  exists t', w'. split; [exact Hrun|]. split; [exact Ht'|].
  split; [exact Hmono | exact Hhi].
Defined.

(** ** The threshold of the suspicious-node list on doubles *)

Lemma double_below_0_4 (x : Q) :
  b64 x == x -> Qltb x (2 # 5) = Qltb x double_0_4.
Proof.
  intros Hx.
  destruct (Qltb x (2 # 5)) eqn:A, (Qltb x double_0_4) eqn:B;
    try reflexivity;
    destruct float_literals as (_ & _ & E & _ & _ & _ & Hlt & _).
  - apply Qltb_lt in A. apply Qltb_ge in B. lra.
  - apply Qltb_ge in A. apply Qltb_lt in B.
    assert (H : b64 (2 # 5) <= b64 x) by (apply b64_le; lra).
    rewrite E in H. lra.
Qed.

(** X23.  The threshold of the suspicious-node list is exact on doubles:
    when every trust is a double, the list of the nodes whose trust is
    below 2/5 is the list of the nodes whose trust is below the double that
    the literal 0.4 of lines 112 and 167 denotes, because no double lies
    from 2/5 up to that double. *)
Theorem detected_of_double_threshold (ts : gmap nat Q) :
  (forall n t, ts !! n = Some t -> b64 t == t) ->
  detected_of ts
  = omap (fun nt : nat * Q =>
            if Qltb (snd nt) double_0_4 then Some (fst nt) else None)
         (map_to_list ts) /\
  forall n, n ∈ detected_of ts <->
            exists t, ts !! n = Some t /\ t < double_0_4.
Proof.
  intros Hd.
  assert (Hall : Forall (fun nt : nat * Q => b64 (snd nt) == snd nt)
                        (map_to_list ts)).
  { apply Forall_forall. intros [n t] Hin. cbn.
    apply elem_of_map_to_list in Hin. by apply (Hd n). }
  split.
  - unfold detected_of. induction Hall as [|[n t] l Hnt Hl IH]; [done|].
    cbn in *. rewrite (double_below_0_4 t Hnt). by rewrite IH.
  - intros n. rewrite detected_of_elem. split.
    + intros (t & Ht & Hlt). exists t. split; [done|].
      apply Qltb_lt. rewrite <- (double_below_0_4 t (Hd n t Ht)).
      by apply Qltb_lt.
    + intros (t & Ht & Hlt). exists t. split; [done|].
      apply Qltb_lt. rewrite (double_below_0_4 t (Hd n t Ht)).
      by apply Qltb_lt.
Qed.

(** X23 on [example_doubles]: only node 1 is listed. *)
Lemma detected_of_double_threshold_witness :
  (forall n t, example_doubles !! n = Some t -> b64 t == t) /\
  detected_of example_doubles = [1%nat] /\
  (1%nat ∈ detected_of example_doubles
   <-> exists t, example_doubles !! 1%nat = Some t /\ t < double_0_4).
Proof.
  assert (Hd : forall n t, example_doubles !! n = Some t -> b64 t == t).
  { intros n t Ht. unfold example_doubles in Ht.
    apply elem_of_list_to_map_2 in Ht.
    repeat (apply elem_of_cons in Ht as [Ht|Ht];
            [injection Ht as -> ->; by vm_compute|]).
    by apply elem_of_nil in Ht. }
  split; [exact Hd|]. split; [by vm_compute|].
  exact (proj2 (detected_of_double_threshold example_doubles Hd) 1%nat).
Defined.

(** ** The two updaters *)

Lemma rne_error (q : Q) :
  - (1 # 2) <= inject_Z (rne q) - q <= 1 # 2.
Proof.
  pose proof (Qfloor_le q) as H1. pose proof (Qlt_floor q) as H2.
  rewrite inject_Z_plus in H2. change (inject_Z 1) with 1 in H2.
  unfold rne.
  destruct (Qltb (q - inject_Z (Qfloor q)) (1 # 2)) eqn:A.
  { apply Qltb_lt in A. lra. }
  apply Qltb_ge in A.
  destruct (Qltb (1 # 2) (q - inject_Z (Qfloor q))) eqn:B.
  { apply Qltb_lt in B. rewrite inject_Z_plus. change (inject_Z 1) with 1. lra. }
  apply Qltb_ge in B.
  destruct (Z.even (Qfloor q)); [lra|].
  rewrite inject_Z_plus. change (inject_Z 1) with 1. lra.
Qed.

Lemma ulp_exp_le (x : Q) (k : Z) :
  ~ x == 0 -> Qabs x < 2 ^ (k + 1) -> (-1022 <= k)%Z ->
  (ulp_exp x <= k - 52)%Z.
Proof.
  intros Hx Hlt Hk. unfold ulp_exp.
  assert (Hpos : 0 < Qabs x).
  { pose proof (Qabs_nonneg x).
    destruct (Qeq_dec (Qabs x) 0) as [E|N]; [|lra].
    exfalso. apply Hx. destruct x as [[|n|n] d]; try done. }
  destruct (ilog2_spec (Qabs x) Hpos) as [Hlo _].
  assert (H : 2 ^ ilog2 (Qabs x) < 2 ^ (k + 1)) by lra.
  apply Qpower_lt_compat_l_inv in H; [lia | reflexivity].
Qed.

(** A rational below [2^(k+1)] in absolute value is within [2^(k-53)] of
    the double nearest to it. *)
Lemma b64_close (x : Q) (k : Z) :
  Qabs x < 2 ^ (k + 1) -> (-1022 <= k)%Z ->
  - 2 ^ (k - 53) <= b64 x - x <= 2 ^ (k - 53).
Proof.
  intros Hlt Hk. pose proof (pow2_pos (k - 53)) as Hp.
  destruct (Qeq_dec x 0) as [E|N].
  { rewrite (b64_zero x E). lra. }
  rewrite (b64_eq x N).
  pose proof (ulp_exp_le x k N Hlt Hk) as Hc. apply pow2_le in Hc.
  pose proof (pow2_pos (ulp_exp x)) as Hu.
  assert (Ek : 2 ^ (k - 52) == 2 * 2 ^ (k - 53)).
  { replace (k - 52)%Z with (1 + (k - 53))%Z by lia. by rewrite pow2_plus. }
  pose proof (rne_error (x / 2 ^ ulp_exp x)) as [E1 E2].
  assert (Hx : x == x / 2 ^ ulp_exp x * 2 ^ ulp_exp x) by (field; lra).
  set (q := x / 2 ^ ulp_exp x) in *. set (m := inject_Z (rne q)) in *.
  set (u := 2 ^ ulp_exp x) in *.
  assert (Hd : m * u - x == (m - q) * u) by (rewrite Hx at 1; ring).
  rewrite Hd. split; nra.
Qed.

Lemma py_min_close (a b eps : Q) :
  - eps <= a - b <= eps -> - eps <= py_min 1 a - py_min 1 b <= eps.
Proof.
  intros H. unfold py_min.
  destruct (Qltb a 1) eqn:A, (Qltb b 1) eqn:B;
    repeat match goal with
    | H : Qltb _ _ = true |- _ => apply Qltb_lt in H
    | H : Qltb _ _ = false |- _ => apply Qltb_ge in H
    end; lra.
Qed.

Lemma py_max_close (a b eps : Q) :
  - eps <= a - b <= eps -> - eps <= py_max 0 a - py_max 0 b <= eps.
Proof.
  intros H. unfold py_max.
  destruct (Qltb 0 a) eqn:A, (Qltb 0 b) eqn:B;
    repeat match goal with
    | H : Qltb _ _ = true |- _ => apply Qltb_lt in H
    | H : Qltb _ _ = false |- _ => apply Qltb_ge in H
    end; lra.
Qed.

Lemma Qabs_small (x : Q) (k : Z) : - 2 ^ k < x -> x < 2 ^ k -> Qabs x < 2 ^ k.
Proof.
  intros H1 H2. apply Qabs_case; intros; lra.
Qed.

Lemma new_trust_b64_close (success : bool) (t : Q) :
  0 <= t <= 1 ->
  - (1 # 4503599627370496) <= new_trust_b64 success t - new_trust success t
    <= 1 # 4503599627370496.
Proof.
  intros Ht. unfold new_trust_b64, new_trust.
  assert (P1 : 2 ^ (0 + 1) == 2) by reflexivity.
  assert (P2 : 2 ^ (0 - 53) == 1 # 9007199254740992) by reflexivity.
  assert (L5 : 0 < double_0_05 - (1 # 20) < 1 # 100000000000000000)
    by (split; reflexivity).
  assert (L1 : 0 < double_0_1 - (1 # 10) < 1 # 100000000000000000)
    by (split; reflexivity).
  assert (D5 : double_0_05 < 1 # 10) by reflexivity.
  assert (D1 : double_0_1 < 2 # 10) by reflexivity.
  destruct success.
  - apply py_min_close. unfold fadd.
    pose proof (b64_close (t + double_0_05) 0) as H.
    rewrite P2 in H.
    destruct H as [H1 H2]; [apply Qabs_small; rewrite P1; lra | lia |].
    split; lra.
  - apply py_max_close. unfold fsub.
    pose proof (b64_close (t - double_0_1) 0) as H.
    rewrite P2 in H.
    destruct H as [H1 H2]; [apply Qabs_small; rewrite P1; lra | lia |].
    split; lra.
Qed.

Lemma energy_cost_b64_close (w : World) :
  - (3 # 9007199254740992) <= energy_cost_b64 w - energy_cost w
    <= 3 # 9007199254740992.
Proof.
  unfold energy_cost_b64, energy_cost.
  destruct (rng_next_range (rng w)) as [Hlo Hhi].
  set (d := fst (rng_next (rng w))) in *.
  assert (E : fsub 2 (1 # 2) = 3 # 2) by (vm_compute; reflexivity).
  rewrite E.
  assert (P1 : 2 ^ (0 + 1) == 2) by reflexivity.
  assert (P2 : 2 ^ (0 - 53) == 1 # 9007199254740992) by reflexivity.
  assert (P3 : 2 ^ (1 + 1) == 4) by reflexivity.
  assert (P4 : 2 ^ (1 - 53) == 2 # 9007199254740992) by reflexivity.
  pose proof (b64_close ((3 # 2) * d) 0) as Hm. rewrite P2 in Hm.
  destruct Hm as [M1 M2]; [apply Qabs_small; rewrite P1; nra | lia |].
  fold (fmul (3 # 2) d) in M1, M2.
  pose proof (b64_close ((1 # 2) + fmul (3 # 2) d) 1) as Ha. rewrite P4 in Ha.
  destruct Ha as [A1 A2]; [apply Qabs_small; rewrite P3; nra | lia |].
  fold (fadd (1 # 2) (fmul (3 # 2) d)) in A1, A2.
  split; lra.
Qed.

(** X24.  The two forms of the updater agree up to rounding: on a sender
    whose trust is in [0,1] and whose energy is in [0,100], the updater
    with the roundings of binary64 and the updater in exact decimal
    arithmetic both return normally, make the same draw and end in the
    state after that draw with two entries rewritten, the trust and the
    energy of the sender; the trusts they store differ by at most [2^-52]
    and the energies by at most [2^-46]. *)
Theorem update_trust_energy_rounding (w : World) (s : nat) (success : bool)
    (t e : Q) :
  trust_scores w !! s = Some t ->
  energy w !! s = Some e ->
  0 <= t <= 1 -> 0 <= e <= 100 ->
  exists (tb eb tx ex : Q),
    update_trust_energy_b64 s success w
    = Ok tt (with_energy (<[s := eb]> (energy w))
               (with_trust (<[s := tb]> (trust_scores w)) (advance w))) /\
    update_trust_energy s success w
    = Ok tt (with_energy (<[s := ex]> (energy w))
               (with_trust (<[s := tx]> (trust_scores w)) (advance w))) /\
    Qabs (tb - tx) <= 1 # 4503599627370496 /\
    Qabs (eb - ex) <= 1 # 70368744177664.
Proof.
  intros Ht He Hrt Hre.
  exists (new_trust_b64 success t), (py_max 0 (fsub e (energy_cost_b64 w))),
         (new_trust success t), (py_max 0 (e - energy_cost w)).
  split; [by rewrite (update_trust_energy_b64_run w s success t e)|].
  split; [by rewrite (update_trust_energy_run w s success t e)|].
  split.
  { apply Qabs_Qle_condition. apply (new_trust_b64_close success t Hrt). }
  apply Qabs_Qle_condition.
  destruct (energy_cost_b64_range w) as [U1 U2].
  destruct (energy_cost_b64_close w) as [C1 C2].
  assert (P1 : 2 ^ (6 + 1) == 128) by reflexivity.
  assert (P2 : 2 ^ (6 - 53) == 1 # 140737488355328) by reflexivity.
  pose proof (b64_close (e - energy_cost_b64 w) 6) as H. rewrite P2 in H.
  destruct H as [H1 H2]; [apply Qabs_small; rewrite P1; lra | lia |].
  fold (fsub e (energy_cost_b64 w)) in H1, H2.
  assert (Hc : - (1 # 70368744177664)
               <= fsub e (energy_cost_b64 w) - (e - energy_cost w)
               <= 1 # 70368744177664) by (split; lra).
  apply (py_max_close _ _ _ Hc).
Qed.

(** X24 on a failure of node 2 in [sample_world]: the two stored trusts
    are within [2^-52] of each other. *)
Lemma update_trust_energy_rounding_witness :
  trust_scores sample_world !! 2%nat = Some 1 /\
  energy sample_world !! 2%nat = Some 100 /\
  exists (tb tx : Q) (wb wx : World),
    update_trust_energy_b64 2 false sample_world = Ok tt wb /\
    update_trust_energy 2 false sample_world = Ok tt wx /\
    trust_scores wb !! 2%nat = Some tb /\ trust_scores wx !! 2%nat = Some tx /\
    Qabs (tb - tx) <= 1 # 4503599627370496.
Proof.
  assert (Ht : trust_scores sample_world !! 2%nat = Some 1)
    by (vm_compute; reflexivity).
  assert (He : energy sample_world !! 2%nat = Some 100)
    by (vm_compute; reflexivity).
  assert (Hrt : 0 <= 1 <= 1) by (split; discriminate).
  assert (Hre : 0 <= 100 <= 100) by (split; discriminate).
  split; [exact Ht|]. split; [exact He|].
  destruct (update_trust_energy_rounding sample_world 2 false 1 100
              Ht He Hrt Hre)
    as (tb & eb & tx & ex & Hb & Hx & Hclose & _).
  exists tb, tx. eexists. eexists.
  split; [exact Hb|]. split; [exact Hx|].
  split; [apply lookup_insert_eq|].
  split; [apply lookup_insert_eq | exact Hclose].
Defined.
